(** * Monkey compiler: hash type tracker, attributes, addition chains and
      the compile/run handlers

    A shallow embedding of four files of the compiler

    - [visitor/contextual/hashhelper.go]       (module [Contextual])
    - [identification/attribute.go]            (module [Identification])
    - [visitor/codegenerator/additionexpression.go] (module [Codegenerator])
    - [handler/monkey.go]                      (module [Handler])

    on top of a small model of the Go constructs they use (module [Go]):
    run-time panics, slices with their backing array, and an error/state
    monad for methods with a pointer receiver.  The definitions come first,
    the theorems about them follow in the second half of the file. *)

From Stdlib Require Import ZArith String Ascii Lia.
From stdpp Require Import base option list strings gmap.
From Equations Require Import Equations.

Local Open Scope Z_scope.

(* ===================================================================== *)
(** * Part I: definitions                                                 *)
(* ===================================================================== *)

(* --------------------------------------------------------------------- *)
(** ** Go: panics, slices, methods on a pointer receiver                  *)
(* --------------------------------------------------------------------- *)

Module Go.

(** The run-time panics the embedded code can raise. *)
Inductive panic : Type :=
| IndexOutOfRange        (* s[i] with i < 0 or len(s) <= i *)
| SliceBoundsOutOfRange  (* s[:n] with n < 0 or cap(s) < n *)
| NilDereference.        (* a method that reads a field of a nil receiver, or
                            a call through a nil interface *)

Inductive result (A : Type) : Type :=
| Ok (a : A)
| Panic (p : panic).
Arguments Ok {A} a.
Arguments Panic {A} p.

(** A method with receiver state [S]: it returns a value and the new state,
    or panics (the state at the panic is lost with the goroutine). *)
Definition M (S A : Type) : Type := S -> result (A * S).

Definition ret {S A} (a : A) : M S A := fun s => Ok (a, s).

Definition bind {S A B} (m : M S A) (k : A -> M S B) : M S B :=
  fun s => match m s with
           | Ok (a, s') => k a s'
           | Panic p => Panic p
           end.

Definition get {S} : M S S := fun s => Ok (s, s).
Definition put {S} (s : S) : M S unit := fun _ => Ok (tt, s).
Definition lift {S A} (r : result A) : M S A :=
  fun s => match r with Ok a => Ok (a, s) | Panic p => Panic p end.

(** Go's [int] is written as [Z].  The only arithmetic in the embedded code
    is [levels++] and [levels--] of the hash tracker, next to an [append]
    to and a re-slice of [hashs]: on every state the tracker reaches,
    [levels] is [len(hashs) - 1], and a slice length is an [int] itself, so
    neither step can leave the range of [int].  The wrap-around of [int] is
    therefore not written. *)

(** A slice: [NilSlice] is the nil slice; [Slice e sp] views a backing
    array holding [e ++ sp], of which [e] (the first [len]) is visible and
    [sp] is the rest of the capacity. *)
Inductive slice (A : Type) : Type :=
| NilSlice
| Slice (visible rest : list A).
Arguments NilSlice {A}.
Arguments Slice {A} visible rest.

Section Slices.
Context {A : Type}.

Definition elems (s : slice A) : list A :=
  match s with NilSlice => [] | Slice e _ => e end.

Definition spare (s : slice A) : list A :=
  match s with NilSlice => [] | Slice _ sp => sp end.

Definition is_nil (s : slice A) : bool :=
  match s with NilSlice => true | Slice _ _ => false end.

(** [len(s)] and [cap(s)] *)
Definition len (s : slice A) : Z := Z.of_nat (length (elems s)).
Definition cap (s : slice A) : Z :=
  Z.of_nat (length (elems s) + length (spare s)).

(** [s[i]] as a value *)
Definition index (s : slice A) (i : Z) : result A :=
  if (0 <=? i) && (i <? len s) then
    match elems s !! Z.to_nat i with
    | Some x => Ok x
    | None => Panic IndexOutOfRange
    end
  else Panic IndexOutOfRange.

(** [s[i] = x]: the write goes to the backing array, the slice header is
    the same. *)
Definition store (s : slice A) (i : Z) (x : A) : result (slice A) :=
  if (0 <=? i) && (i <? len s) then
    Ok (Slice (<[Z.to_nat i := x]> (elems s)) (spare s))
  else Panic IndexOutOfRange.

(** [s[:n]]: legal up to the capacity, also beyond the length. *)
Definition reslice_to (s : slice A) (n : Z) : result (slice A) :=
  if (0 <=? n) && (n <=? cap s) then
    Ok (match s with
        | NilSlice => NilSlice
        | Slice e sp => Slice (take (Z.to_nat n) (e ++ sp))
                              (drop (Z.to_nat n) (e ++ sp))
        end)
  else Panic SliceBoundsOutOfRange.

(** [append(s, x)].  With spare capacity the element is written in place
    over the first spare slot.  Without, the runtime allocates a larger
    array: its capacity is the runtime's choice, at least [len(s) + 1];
    [growslice] gives that choice from the old capacity, and the new slots
    beyond the appended element hold the zero value. *)
Definition append (growslice : nat -> nat) (zero : A)
    (s : slice A) (x : A) : slice A :=
  match spare s with
  | _ :: sp => Slice (elems s ++ [x]) sp
  | [] =>
      let n := length (elems s) in
      Slice (elems s ++ [x]) (replicate (growslice n - S n)%nat zero)
  end.

End Slices.

End Go.

Declare Scope go_scope.
Delimit Scope go_scope with go.
Notation "x <- m ;; k" := (Go.bind m (fun x => k))
  (at level 100, m at next level, right associativity) : go_scope.

(* --------------------------------------------------------------------- *)
(** ** visitor/contextual/hashhelper.go                                   *)
(* --------------------------------------------------------------------- *)

Module Contextual.
Import Go.

(** [HashType], an [iota] enumeration *)
Inductive HashType : Type := HUNKNOWN | HINTEGER | HSTRING | HCOMPLEX.

Global Instance HashType_eq_dec : EqDecision HashType.
Proof. solve_decision. Defined.

Section Tracker.

(** [antlr.Token] is an interface of the ANTLR runtime; [Token] stands for
    its non-nil values and [None] for the nil interface. *)
Variable Token : Type.

(** The growth policy of the Go runtime for [append], see [Go.append]. *)
Variable growslice : nat -> nat.

Record hash : Type := mk_hash {
  token : option Token;
  key : HashType
}.

(** [hash{}] *)
Definition zero_hash : hash := {| token := None; key := HUNKNOWN |}.

Record hashHelper : Type := mk_hashHelper {
  levels : Z;
  hashs : slice hash
}.

Definition newHashHelper : hashHelper :=
  {| levels := -1; hashs := Slice [] [] |}.

Local Open Scope go_scope.

Definition newHash : M hashHelper unit :=
  h <- get ;;
  let h1 := {| levels := levels h + 1; hashs := hashs h |} in
  put {| levels := levels h1;
         hashs := append growslice zero_hash (hashs h1) zero_hash |}.

Definition setToken (tok : option Token) : M hashHelper unit :=
  h <- get ;;
  if -1 <? levels h then
    e <- lift (index (hashs h) (levels h)) ;;
    hs <- lift (store (hashs h) (levels h) {| token := tok; key := key e |}) ;;
    put {| levels := levels h; hashs := hs |}
  else ret tt.

Definition getToken : M hashHelper (option Token) :=
  h <- get ;;
  e <- lift (index (hashs h) (levels h)) ;;
  ret (token e).

Definition setType (k : HashType) : M hashHelper unit :=
  h <- get ;;
  e <- lift (index (hashs h) (levels h)) ;;
  hs <- lift (store (hashs h) (levels h) {| token := token e; key := k |}) ;;
  put {| levels := levels h; hashs := hs |}.

Definition getType : M hashHelper HashType :=
  h <- get ;;
  if -1 <? levels h then
    e <- lift (index (hashs h) (levels h)) ;;
    ret (key e)
  else ret HCOMPLEX.

Definition closeHash : M hashHelper unit :=
  h <- get ;;
  hs <- lift (reslice_to (hashs h) (levels h)) ;;
  let h1 := {| levels := levels h; hashs := hs |} in
  put {| levels := levels h1 - 1; hashs := hashs h1 |}.

(** The methods of the tracker as calls, to speak of sequences of them. *)
Inductive call : Type :=
| NewHash
| SetToken (tok : option Token)
| GetToken
| SetType (k : HashType)
| GetType
| CloseHash.

(** The state after a call (the value it returns is dropped). *)
Definition exec (c : call) (h : hashHelper) : result hashHelper :=
  match c with
  | NewHash => match newHash h with Ok (_, h') => Ok h' | Panic p => Panic p end
  | SetToken tok =>
      match setToken tok h with Ok (_, h') => Ok h' | Panic p => Panic p end
  | GetToken => match getToken h with Ok (_, h') => Ok h' | Panic p => Panic p end
  | SetType k =>
      match setType k h with Ok (_, h') => Ok h' | Panic p => Panic p end
  | GetType => match getType h with Ok (_, h') => Ok h' | Panic p => Panic p end
  | CloseHash =>
      match closeHash h with Ok (_, h') => Ok h' | Panic p => Panic p end
  end.

Fixpoint exec_all (cs : list call) (h : hashHelper) : result hashHelper :=
  match cs with
  | [] => Ok h
  | c :: cs' =>
      match exec c h with
      | Ok h' => exec_all cs' h'
      | Panic p => Panic p
      end
  end.

(** The states a tracker can be in: made by [newHashHelper] and changed
    only through its methods, none of which panicked. *)
Inductive reachable : hashHelper -> Prop :=
| reachable_new : reachable newHashHelper
| reachable_call c h h' :
    reachable h -> exec c h = Ok h' -> reachable h'.

(** The invariant of the reachable states: the counter trails the number
    of open frames by one. *)
Definition wf (h : hashHelper) : Prop := levels h = len (hashs h) - 1.

(** A sequence of [newHash]/[closeHash] calls is balanced when every
    [closeHash] closes a [newHash] of the sequence and none stays open;
    [balanced_from d] reads the sequence with [d] of its own frames open. *)
Fixpoint balanced_from (d : nat) (cs : list call) : bool :=
  match cs with
  | [] => match d with O => true | S _ => false end
  | NewHash :: cs' => balanced_from (S d) cs'
  | CloseHash :: cs' =>
      match d with
      | O => false
      | S d' => balanced_from d' cs'
      end
  | _ :: _ => false
  end.

Definition balanced (cs : list call) : bool := balanced_from 0 cs.

(** The frames that are open, bottom first, and the top one. *)
Definition frames (h : hashHelper) : list hash := elems (hashs h).
Definition top (h : hashHelper) : option hash := last (frames h).

(** Observing key types one after the other with [setType], and the type
    [getType] reports afterwards. *)
Definition observe (ks : list HashType) : list call := map SetType ks.

Definition observed_type (ks : list HashType) (h : hashHelper)
    : result HashType :=
  match exec_all (observe ks) h with
  | Ok h' => match getType h' with Ok (k, _) => Ok k | Panic p => Panic p end
  | Panic p => Panic p
  end.

(** The calls made while one hash literal is visited, nested literals
    included: the sequence opens its own frames and closes them all, and it
    writes and reads the token and writes the type only while one of its
    own frames is open ([getType] is guarded and may come anywhere).
    [scoped_from d] reads the sequence with [d] of its frames open. *)
Fixpoint scoped_from (d : nat) (cs : list call) : bool :=
  match cs with
  | [] => match d with O => true | S _ => false end
  | NewHash :: cs' => scoped_from (S d) cs'
  | CloseHash :: cs' =>
      match d with
      | O => false
      | S d' => scoped_from d' cs'
      end
  | GetType :: cs' => scoped_from d cs'
  | SetToken _ :: cs' | SetType _ :: cs' | GetToken :: cs' =>
      match d with
      | O => false
      | S _ => scoped_from d cs'
      end
  end.

Definition scoped (cs : list call) : bool := scoped_from 0 cs.

End Tracker.

Arguments token {Token} _.
Arguments key {Token} _.
Arguments levels {Token} _.
Arguments hashs {Token} _.
Arguments NewHash {Token}.
Arguments SetToken {Token} tok.
Arguments GetToken {Token}.
Arguments SetType {Token} k.
Arguments GetType {Token}.
Arguments CloseHash {Token}.
Arguments newHashHelper {Token}.

End Contextual.

(* --------------------------------------------------------------------- *)
(** ** identification/attribute.go                                        *)
(* --------------------------------------------------------------------- *)

Module Identification.
Import Go.

(** [ExpressionType], an [iota] enumeration *)
Inductive ExpressionType : Type :=
| NEUTRAL | IDENTIFIER | FUNCTION | HASH | ARRAY.

(** Addresses of allocated attributes. *)
Abbreviation addr := nat.

Section Attribute.

(** [antlr.Token] as in [Contextual]; [Data] stands for the values of the
    empty interface held in the [data] field. *)
Variable Token : Type.
Variable Data : Type.

Record attribute : Type := mk_attribute {
  expression : ExpressionType;
  token : option Token;
  visited : bool;
  data : Data
}.

(** Attributes are handled through [*attribute]: the constructor returns a
    pointer and every method has a pointer receiver, so a mark made through
    one copy of the pointer is seen through all of them.  The store maps
    the addresses handed out so far to the attributes they hold; a pointer
    is an address or nil. *)
Definition pointer : Type := option addr.
Local Abbreviation store := (gmap addr attribute).

(** Reading and writing through a pointer; a nil receiver panics.  (An
    address outside the store does not arise in Go; it is made to panic
    alike.) *)
Definition load (p : pointer) : M store attribute :=
  fun st =>
    match p with
    | None => Panic NilDereference
    | Some l => match st !! l with
                | Some a => Ok (a, st)
                | None => Panic NilDereference
                end
    end.

Definition assign (p : pointer) (a : attribute) : M store unit :=
  fun st =>
    match p with
    | None => Panic NilDereference
    | Some l => match st !! l with
                | Some _ => Ok (tt, <[l := a]> st)
                | None => Panic NilDereference
                end
    end.

Local Open Scope go_scope.

(** The composite literal leaves [visited] out: it is the zero value. *)
Definition NewAttribute (e : ExpressionType) (t : option Token) (d : Data)
    : M store pointer :=
  fun st =>
    let l := fresh (dom st) in
    Ok (Some l,
        <[l := {| expression := e; token := t; visited := false;
                  data := d |}]> st).

Definition getToken (a : pointer) : M store (option Token) :=
  x <- load a ;; ret (token x).

Definition markVisited (a : pointer) : M store unit :=
  x <- load a ;;
  assign a {| expression := expression x; token := token x; visited := true;
            data := data x |}.

Definition wasVisited (a : pointer) : M store bool :=
  x <- load a ;; ret (visited x).

Definition GetType (a : pointer) : M store ExpressionType :=
  x <- load a ;; ret (expression x).

Definition GetData (a : pointer) : M store Data :=
  x <- load a ;; ret (data x).

(** The operations of the file as calls. *)
Inductive call : Type :=
| CallNewAttribute (e : ExpressionType) (t : option Token) (d : Data)
| CallGetToken (a : pointer)
| CallMarkVisited (a : pointer)
| CallWasVisited (a : pointer)
| CallGetType (a : pointer)
| CallGetData (a : pointer).

Definition after {A} (r : result (A * store)) : result store :=
  match r with Ok (_, st) => Ok st | Panic p => Panic p end.

Definition exec (c : call) (st : store) : result store :=
  match c with
  | CallNewAttribute e t d => after (NewAttribute e t d st)
  | CallGetToken a => after (getToken a st)
  | CallMarkVisited a => after (markVisited a st)
  | CallWasVisited a => after (wasVisited a st)
  | CallGetType a => after (GetType a st)
  | CallGetData a => after (GetData a st)
  end.

Fixpoint exec_all (cs : list call) (st : store) : result store :=
  match cs with
  | [] => Ok st
  | c :: cs' =>
      match exec c st with
      | Ok st' => exec_all cs' st'
      | Panic p => Panic p
      end
  end.

Definition is_mark (c : call) : bool :=
  match c with CallMarkVisited _ => true | _ => false end.

(** The call marks the attribute behind [a]. *)
Definition marks (a : pointer) (c : call) : bool :=
  match c with
  | CallMarkVisited b => bool_decide (a = b)
  | _ => false
  end.

End Attribute.

Arguments expression {Token Data} _.
Arguments token {Token Data} _.
Arguments visited {Token Data} _.
Arguments data {Token Data} _.

End Identification.

(* --------------------------------------------------------------------- *)
(** ** visitor/codegenerator/additionexpression.go                        *)
(* --------------------------------------------------------------------- *)

Module Codegenerator.
Import Go.

Section Visitor.

(** The two kinds of children of an addition tree, as the grammar rule in
    the file's comment has them: [MulExpr] stands for the (non-nil)
    multiplication-expression contexts, [Factor] for the addition-factor
    contexts. *)
Variable MulExpr Factor : Type.

Inductive tree : Type :=
| MulNode (m : MulExpr)
| FactorNode (f : Factor).

(** Modelled from the spec: [parser.AdditionTreeContext], generated by
    ANTLR from the rule [multiplicationExpression (additionFactor
    multiplicationExpression)*], is not among the sources.  The context
    holds its children in source order; the typed accessors count the
    children of their kind and return nil when there is no such child. *)
Record AdditionTreeContext : Type := mk_AdditionTreeContext {
  children : list tree
}.

Definition AllMultiplicationExpression (ctx : AdditionTreeContext)
    : list MulExpr :=
  omap (fun c => match c with MulNode m => Some m | FactorNode _ => None end)
       (children ctx).

Definition AllAdditionFactor (ctx : AdditionTreeContext) : list Factor :=
  omap (fun c => match c with FactorNode f => Some f | MulNode _ => None end)
       (children ctx).

Definition MultiplicationExpression (ctx : AdditionTreeContext) (i : Z)
    : option tree :=
  if i <? 0 then None
  else MulNode <$> AllMultiplicationExpression ctx !! Z.to_nat i.

Definition AdditionFactor (ctx : AdditionTreeContext) (i : Z)
    : option tree :=
  if i <? 0 then None
  else FactorNode <$> AllAdditionFactor ctx !! Z.to_nat i.

(** The visitor [v] and its dispatching [Visit], which is defined with the
    other node kinds outside this file: it takes the child (or nil) and
    acts on the visitor; the value it returns is dropped by the caller. *)
Variable visitor : Type.
Variable Visit : option tree -> M visitor unit.

Local Open Scope go_scope.

(** The [for index < totalBranches] loop, entered with [index]. *)
Equations? additionLoop (ctx : AdditionTreeContext) (totalBranches index : Z)
    : M visitor unit by wf (Z.to_nat (totalBranches - index)) lt :=
additionLoop ctx totalBranches index with Z_lt_dec index totalBranches := {
  | left _ =>
      _ <- Visit (MultiplicationExpression ctx index) ;;
      _ <- Visit (AdditionFactor ctx (index - 1)) ;;
      additionLoop ctx totalBranches (index + 1)
  | right _ => ret tt
}.
Proof. lia. Qed.

Definition VisitAdditionTree (ctx : AdditionTreeContext) : M visitor unit :=
  _ <- Visit (MultiplicationExpression ctx 0) ;;
  let totalBranches :=
    Z.of_nat (length (AllMultiplicationExpression ctx)) in
  additionLoop ctx totalBranches 1.

(** The node of the chain [a0 op1 a1 ... opk ak], given as [a0] and the
    pairs [(op1, a1) ... (opk, ak)]. *)
Definition chain (a0 : MulExpr) (rest : list (Factor * MulExpr))
    : AdditionTreeContext :=
  {| children :=
       MulNode a0 ::
       flat_map (fun p => [FactorNode (fst p); MulNode (snd p)]) rest |}.

(** Visiting nodes one after the other. *)
Fixpoint visit_all (ts : list tree) : M visitor unit :=
  match ts with
  | [] => ret tt
  | t :: ts' => _ <- Visit (Some t) ;; visit_all ts'
  end.

(** The order [a0, a1, op1, ..., ak, opk]. *)
Definition chain_order (a0 : MulExpr) (rest : list (Factor * MulExpr))
    : list tree :=
  MulNode a0 ::
  flat_map (fun p => [MulNode (snd p); FactorNode (fst p)]) rest.

(** The node is a factor. *)
Definition is_factor (t : tree) : bool :=
  match t with FactorNode _ => true | MulNode _ => false end.

(** Visiting what the accessors returned, nil included. *)
Fixpoint visit_nodes (ts : list (option tree)) : M visitor unit :=
  match ts with
  | [] => ret tt
  | t :: ts' => _ <- Visit t ;; visit_nodes ts'
  end.

(** The arguments of the calls of [Visit] that [VisitAdditionTree] makes on
    a context with [n] operands: operand 0, then operand [i] and factor
    [i - 1] for [i] from 1 to [n - 1], each as its accessor returns it. *)
Definition schedule (ctx : AdditionTreeContext) : list (option tree) :=
  MultiplicationExpression ctx 0 ::
  flat_map
    (fun i : nat =>
       [MultiplicationExpression ctx (Z.of_nat i);
        AdditionFactor ctx (Z.of_nat i - 1)])
    (seq 1 (length (AllMultiplicationExpression ctx) - 1)).

End Visitor.

Arguments MulNode {MulExpr Factor} m.
Arguments FactorNode {MulExpr Factor} f.

Section Stream.

(** A visitor that is its instruction buffer: [code m] is what visiting the
    operand [m] appends, [opcode f] the one instruction visiting the
    factor [f] appends. *)
Variable MulExpr Factor Instr : Type.
Variable code : MulExpr -> list Instr.
Variable opcode : Factor -> Instr.

(** [code(a0) code(a1) op1 ... code(ak) opk] *)
Definition chain_code (a0 : MulExpr) (rest : list (Factor * MulExpr))
    : list Instr :=
  code a0 ++ flat_map (fun p => code (snd p) ++ [opcode (fst p)]) rest.

Definition operand_code_size (a0 : MulExpr) (rest : list (Factor * MulExpr))
    : nat :=
  length (code a0) + foldr (fun p n => length (code (snd p)) + n)%nat 0%nat rest.

End Stream.

End Codegenerator.

(* --------------------------------------------------------------------- *)
(** ** handler/monkey.go                                                  *)
(* --------------------------------------------------------------------- *)

Module Handler.
Import Go.

Local Open Scope string_scope.

(** The line feed of the format strings. *)
Definition nl : string := String (ascii_of_nat 10) EmptyString.

(** [s] ends in [suffix]; [s] contains [part]. *)
Definition ends_in (s suffix : string) : Prop :=
  exists front, s = front +:+ suffix.

Definition contains (s part : string) : Prop :=
  exists front back, s = front +:+ part +:+ back.

(** A Go [error]: nil, or a value whose [Error()] is the message. *)
Definition error : Type := option string.

(** What an error listener has collected when it is asked: [Errors()] and
    [Lines()].  Both [errors.ParserErrorListener] and
    [identification.ErrorsHandler] are outside this file. *)
Record listener : Type := mk_listener {
  Errors : slice string;
  Lines : slice Z
}.

Section Handlers.

(** The constants [cli.InstructionsCode] and [cli.VM], and
    [strings.TrimSpace] of the Go library. *)
Variable InstructionsCode VM : string.
Variable TrimSpace : string -> string.

(** The parse tree and the value the graph visitor makes of it. *)
Variable Tree Graph : Type.

(** The collaborators of the two handlers, each as what it yields:
    the lexer and parser with their shared error listener, the three
    visitors, and the operating system calls. *)
Record world : Type := mk_world {
  Program : string -> Tree * listener;
  graphVisit : Tree -> Graph;
  contextualVisit : Tree -> listener;
  Code : Tree -> string;
  WriteFile : string -> string -> error;
  Stat : string -> error;
  Output : string -> list string -> string * error
}.

(** What a handler did, in order. *)
Inductive event : Type :=
| EvParse (program : string)
| EvGraph (t : Tree)
| EvContextual (t : Tree)
| EvCodegen (t : Tree)
| EvWriteFile (name data : string)
| EvStat (name : string)
| EvExec (name : string) (args : list string).

(** A computation that logs the collaborators it calls. *)
Definition logged (A : Type) : Type := A * list event.

Definition pure {A} (a : A) : logged A := (a, []).

Definition call {A} (e : event) (a : A) : logged A := (a, [e]).

Definition andthen {A B} (m : logged A) (k : A -> logged B) : logged B :=
  let r := k (fst m) in (fst r, (snd m ++ snd r)%list).

Variable w : world.

(** [save] *)
Definition save (data : string) : logged error :=
  andthen (call (EvWriteFile InstructionsCode data)
             (WriteFile w InstructionsCode data))
    (fun err =>
       match err with
       | Some msg => pure (Some ("Failed to save file. " +:+ msg))
       | None => pure None
       end).

(** [parsing] *)
Definition parsing (program : string)
    : logged (slice string * slice Z * Graph) :=
  andthen (call (EvParse program) (Program w program)) (fun parsed =>
  let tree := fst parsed in
  let parserErrors := snd parsed in
  andthen (call (EvGraph tree) (graphVisit w tree)) (fun treeGraph =>
  if is_nil (Errors parserErrors) then
    andthen (call (EvContextual tree) (contextualVisit w tree))
      (fun contextualErrors =>
    if is_nil (Errors contextualErrors) then
      andthen (call (EvCodegen tree) (Code w tree)) (fun code =>
      andthen (save code) (fun err =>
      match err with
      | Some msg => pure (Slice [msg] [], Slice [] [], treeGraph)
      | None => pure (Slice [] [], Slice [] [], treeGraph)
      end))
    else
      pure (Errors contextualErrors, Lines contextualErrors, treeGraph))
  else
    pure (Errors parserErrors, Lines parserErrors, treeGraph))).

(** [run] *)
Definition run : logged string :=
  andthen (call (EvStat InstructionsCode) (Stat w InstructionsCode))
    (fun err =>
  match err with
  | Some msg =>
      pure ("Instructions code not found. Must compile first." +:+ nl +:+
            TrimSpace msg +:+ nl +:+ "...failed")
  | None =>
      andthen (call (EvExec VM [InstructionsCode])
                 (Output w VM [InstructionsCode]))
        (fun r =>
      match snd r with
      | Some msg => pure (TrimSpace msg +:+ nl +:+ "...failed")
      | None => pure (TrimSpace (fst r) +:+ nl +:+ "...finished")
      end)
  end).

(** The three results of [parsing] and its log. *)
Definition parseErrors (program : string) : slice string :=
  fst (fst (fst (parsing program))).
Definition parseLines (program : string) : slice Z :=
  snd (fst (fst (parsing program))).
Definition parseTree (program : string) : Graph :=
  snd (fst (parsing program)).
Definition parsing_log (program : string) : list event :=
  snd (parsing program).

(** The outcomes of a compile request. *)
Definition syntax_clean (program : string) : bool :=
  is_nil (Errors (snd (Program w program))).

Definition context_clean (program : string) : bool :=
  is_nil (Errors (contextualVisit w (fst (Program w program)))).

Definition save_error (program : string) : error :=
  WriteFile w InstructionsCode (Code w (fst (Program w program))).

(** The compilation went through when nothing was reported and the file
    was written. *)
Definition compiled (program : string) : Prop :=
  syntax_clean program = true /\ context_clean program = true /\
  save_error program = None.


(** The request context of a handler, by what [c.ShouldBindJSON(&req)]
    makes of the request body: an error, or the [Program] field of the
    request it has filled in. *)
Inductive binding : Type :=
| BindError (msg : string)
| Bound (program : string).

(** The response a handler writes: [c.AbortWithStatusJSON] with the
    [message] field, or [c.JSON] with the fields of a compilation or of a
    run. *)
Inductive response : Type :=
| AbortWithStatusJSON (status : Z) (message : string)
| CompileJSON (status : Z) (errors : slice string) (lines : slice Z)
              (tree : Graph)
| RunJSON (status : Z) (result : string).

(** [Compile], the handler of a compile request *)
Definition Compile (c : binding) : logged response :=
  match c with
  | BindError _ => pure (AbortWithStatusJSON 400 "Bad request")
  | Bound program =>
      andthen (parsing program) (fun r =>
      pure (CompileJSON 200 (fst (fst r)) (snd (fst r)) (snd r)))
  end.

(** [Run], the handler of a run request *)
Definition Run : logged response :=
  andthen run (fun result => pure (RunJSON 200 result)).

Definition status (r : response) : Z :=
  match r with
  | AbortWithStatusJSON st _ => st
  | CompileJSON st _ _ _ => st
  | RunJSON st _ => st
  end.

(** All the steps of a compilation that goes through, in order. *)
Definition pipeline (program : string) : list event :=
  let tree := fst (Program w program) in
  [EvParse program; EvGraph tree; EvContextual tree; EvCodegen tree;
   EvWriteFile InstructionsCode (Code w tree)].

End Handlers.

Arguments EvParse {Tree} program.
Arguments EvGraph {Tree} t.
Arguments EvContextual {Tree} t.
Arguments EvCodegen {Tree} t.
Arguments EvWriteFile {Tree} name data.
Arguments EvStat {Tree} name.
Arguments EvExec {Tree} name args.
Arguments AbortWithStatusJSON {Graph} status message.
Arguments CompileJSON {Graph} status errors lines tree.
Arguments RunJSON {Graph} status result.

End Handler.

(* --------------------------------------------------------------------- *)
(** ** Concrete instances, used to run the definitions                    *)
(* --------------------------------------------------------------------- *)

Module Samples.
Import Go.

(** A growth policy in the manner of the Go runtime: double the array. *)
Definition double_cap (n : nat) : nat := Nat.max (S n) (2 * n).

(** Tokens are told apart by a number. *)
Definition tracker_new : Contextual.hashHelper nat := Contextual.newHashHelper.

(** The tracker inside one hash literal, no key seen yet. *)
Definition tracker_open : Contextual.hashHelper nat :=
  {| Contextual.levels := 0;
     Contextual.hashs := Slice [Contextual.zero_hash nat] [] |}.

(** The tracker inside a hash literal nested in another, whose token and
    integer key type are recorded. *)
Definition tracker_nested : Contextual.hashHelper nat :=
  {| Contextual.levels := 1;
     Contextual.hashs :=
       Slice [Contextual.mk_hash nat (Some 7%nat) Contextual.HINTEGER;
              Contextual.zero_hash nat] [] |}.

Definition nested_calls : list (Contextual.call nat) :=
  [Contextual.NewHash; Contextual.NewHash; Contextual.CloseHash;
   Contextual.NewHash; Contextual.CloseHash; Contextual.CloseHash].

(** The calls that lead to [tracker_nested]. *)
Definition nested_history : list (Contextual.call nat) :=
  [Contextual.NewHash; Contextual.SetToken (Some 7%nat);
   Contextual.SetType Contextual.HINTEGER; Contextual.NewHash].

(** Attributes: tokens by number, no payload.  The store after declaring
    one identifier, and calls made once it is marked. *)
Definition one_identifier : gmap nat (Identification.attribute nat unit) :=
  {[ 0%nat := Identification.mk_attribute nat unit
                Identification.IDENTIFIER (Some 3%nat) false tt ]}.

Definition marked_identifier : gmap nat (Identification.attribute nat unit) :=
  {[ 0%nat := Identification.mk_attribute nat unit
                Identification.IDENTIFIER (Some 3%nat) true tt ]}.

Definition two_marked : gmap nat (Identification.attribute nat unit) :=
  <[ 1%nat := Identification.mk_attribute nat unit
                Identification.FUNCTION None true tt ]> marked_identifier.

Definition later_calls : list (Identification.call nat unit) :=
  [Identification.CallWasVisited nat unit (Some 0%nat);
   Identification.CallNewAttribute nat unit Identification.FUNCTION None tt;
   Identification.CallMarkVisited nat unit (Some 1%nat);
   Identification.CallGetData nat unit (Some 0%nat);
   Identification.CallMarkVisited nat unit (Some 0%nat)].

(** A function is declared and used while the identifier is not. *)
Definition other_calls : list (Identification.call nat unit) :=
  [Identification.CallNewAttribute nat unit Identification.FUNCTION None tt;
   Identification.CallMarkVisited nat unit (Some 1%nat);
   Identification.CallWasVisited nat unit (Some 1%nat)].

Definition function_marked : gmap nat (Identification.attribute nat unit) :=
  <[ 1%nat := Identification.mk_attribute nat unit
                Identification.FUNCTION None true tt ]> one_identifier.

(** A code generator for sums of integer literals: operands are literals,
    a factor is [true] for [+] and [false] for [-]. *)
Inductive instr : Type := Push (n : Z) | Add | Sub.

Definition literal_code (n : Z) : list instr := [Push n].
Definition factor_opcode (plus : bool) : instr := if plus then Add else Sub.

Definition literal_Visit (t : option (Codegenerator.tree Z bool))
    : M (list instr) unit :=
  fun s =>
    match t with
    | None => Panic NilDereference
    | Some (Codegenerator.MulNode n) => Ok (tt, s ++ literal_code n)
    | Some (Codegenerator.FactorNode f) => Ok (tt, s ++ [factor_opcode f])
    end.

(** [1 + 2 + 3] *)
Definition one_plus_two_plus_three : list (bool * Z) := [(true, 2); (true, 3)].

Local Open Scope string_scope.

(** White space trimmed off both ends, for the characters of ASCII. *)
Fixpoint trim_left (s : string) : string :=
  match s with
  | String c s' => if Ascii.is_space c then trim_left s' else s
  | EmptyString => EmptyString
  end.

Definition trim_space (s : string) : string :=
  String.rev (trim_left (String.rev (trim_left s))).

Definition instructions_file : string := "instructions.mky".
Definition vm_binary : string := "./monkeyvm".

Definition no_errors : Handler.listener :=
  {| Handler.Errors := NilSlice; Handler.Lines := NilSlice |}.

Definition undeclared_x : Handler.listener :=
  {| Handler.Errors := Slice ["Undeclared x"] [];
     Handler.Lines := Slice [1] [] |}.

(** Trees are the program text.  In [clean_world] every program compiles
    and the machine prints [6]. *)
Definition clean_world : Handler.world string unit :=
  {| Handler.Program := fun program => (program, no_errors);
     Handler.graphVisit := fun _ => tt;
     Handler.contextualVisit := fun _ => no_errors;
     Handler.Code := fun t => "code of " +:+ t;
     Handler.WriteFile := fun _ _ => None;
     Handler.Stat := fun _ => None;
     Handler.Output := fun _ _ => ("6" +:+ Handler.nl, None) |}.


(** As [clean_world], with a contextual analysis that rejects every
    program, and no instruction file on the disk. *)
Definition undeclared_world : Handler.world string unit :=
  {| Handler.Program := fun program => (program, no_errors);
     Handler.graphVisit := fun _ => tt;
     Handler.contextualVisit := fun _ => undeclared_x;
     Handler.Code := fun t => "code of " +:+ t;
     Handler.WriteFile := fun _ _ => None;
     Handler.Stat := fun _ => Some "stat instructions.mky: no such file";
     Handler.Output := fun _ _ => ("6" +:+ Handler.nl, None) |}.

(** The tracker after a hash literal with string keys was visited: no
    frame is open, the closed frame is still in the backing array. *)
Definition stale_history : list (Contextual.call nat) :=
  [Contextual.NewHash; Contextual.SetToken (Some 5%nat);
   Contextual.SetType Contextual.HSTRING; Contextual.CloseHash].

Definition tracker_stale : Contextual.hashHelper nat :=
  {| Contextual.levels := -1;
     Contextual.hashs :=
       Slice [] [Contextual.mk_hash nat (Some 5%nat) Contextual.HSTRING] |}.

(** What the contextual visitor calls on the tracker for a hash literal
    with string keys that holds a literal with integer keys. *)
Definition literal_calls : list (Contextual.call nat) :=
  [Contextual.NewHash; Contextual.SetToken (Some 9%nat);
   Contextual.SetType Contextual.HSTRING;
   Contextual.NewHash; Contextual.SetToken (Some 11%nat);
   Contextual.SetType Contextual.HINTEGER; Contextual.GetType;
   Contextual.CloseHash;
   Contextual.GetToken; Contextual.GetType; Contextual.CloseHash].

(** A world whose parser rejects every program, and whose machine fails
    after it has printed. *)
Definition syntax_error : Handler.listener :=
  {| Handler.Errors := Slice ["mismatched input"] [];
     Handler.Lines := Slice [2] [] |}.

Definition broken_world : Handler.world string unit :=
  {| Handler.Program := fun program => (program, syntax_error);
     Handler.graphVisit := fun _ => tt;
     Handler.contextualVisit := fun _ => no_errors;
     Handler.Code := fun t => "code of " +:+ t;
     Handler.WriteFile := fun _ _ => None;
     Handler.Stat := fun _ => None;
     Handler.Output := fun _ _ => ("partial output", Some "exit status 2") |}.

(** As [broken_world], with a machine that printed something else. *)
Definition other_broken_world : Handler.world string unit :=
  {| Handler.Program := fun program => (program, syntax_error);
     Handler.graphVisit := fun _ => tt;
     Handler.contextualVisit := fun _ => no_errors;
     Handler.Code := fun t => "code of " +:+ t;
     Handler.WriteFile := fun _ _ => None;
     Handler.Stat := fun _ => None;
     Handler.Output := fun _ _ => ("", Some "exit status 2") |}.

(** An addition tree whose children come operands first, with one factor
    more than the operands need, and the chain it is visited like. *)
Definition shuffled_tree : Codegenerator.AdditionTreeContext Z bool :=
  Codegenerator.mk_AdditionTreeContext Z bool
    [Codegenerator.MulNode 1; Codegenerator.MulNode 2;
     Codegenerator.FactorNode true; Codegenerator.FactorNode false].

(** A visitor that cannot take the operand [0]. *)
Definition picky_Visit (t : option (Codegenerator.tree Z bool))
    : M (list instr) unit :=
  fun s =>
    match t with
    | Some (Codegenerator.MulNode 0) => Panic NilDereference
    | _ => literal_Visit t s
    end.

End Samples.

(* ===================================================================== *)
(** * Part II: theorems                                                   *)
(* ===================================================================== *)

(* --------------------------------------------------------------------- *)
(** ** Slices                                                             *)
(* --------------------------------------------------------------------- *)

Module GoFacts.
Import Go.

Section Slices.
Context {A : Type}.
Implicit Types (s : slice A) (i n : Z) (x : A).

Lemma index_in_range s i :
  0 <= i < len s ->
  exists x, index s i = Ok x /\ elems s !! Z.to_nat i = Some x.
Proof.
  intros [H0 H1]. unfold index.
  destruct (lookup_lt_is_Some_2 (elems s) (Z.to_nat i)) as [x Hx].
  { unfold len in H1. lia. }
  exists x. rewrite Hx.
  apply Z.leb_le in H0. apply Z.ltb_lt in H1. now rewrite H0, H1.
Qed.

Lemma index_out_of_range s i :
  i < 0 \/ len s <= i -> index s i = Panic IndexOutOfRange.
Proof.
  intros H. unfold index.
  destruct (Z.leb_spec 0 i), (Z.ltb_spec i (len s)); simpl; try reflexivity.
  lia.
Qed.

Lemma store_in_range s i x :
  0 <= i < len s ->
  store s i x = Ok (Slice (<[Z.to_nat i := x]> (elems s)) (spare s)).
Proof.
  intros [H0 H1]. unfold store.
  apply Z.leb_le in H0. apply Z.ltb_lt in H1. now rewrite H0, H1.
Qed.

Lemma store_out_of_range s i x :
  i < 0 \/ len s <= i -> store s i x = Panic IndexOutOfRange.
Proof.
  intros H. unfold store.
  destruct (Z.leb_spec 0 i), (Z.ltb_spec i (len s)); simpl; try reflexivity.
  lia.
Qed.

Lemma reslice_to_negative s n :
  n < 0 -> reslice_to s n = Panic SliceBoundsOutOfRange.
Proof.
  intros H. unfold reslice_to.
  destruct (Z.leb_spec 0 n); [lia | reflexivity].
Qed.

(** Re-slicing within the length keeps a prefix of the visible elements. *)
Lemma reslice_to_within s n :
  0 <= n <= len s ->
  exists s', reslice_to s n = Ok s' /\ elems s' = take (Z.to_nat n) (elems s).
Proof.
  intros [H0 H1]. unfold reslice_to, len, cap in *.
  destruct (Z.leb_spec 0 n); [|lia].
  destruct (Z.leb_spec n (Z.of_nat (length (elems s) + length (spare s))));
    [|lia].
  simpl. eexists; split; [reflexivity|].
  destruct s as [|e sp]; simpl in *.
  - now rewrite take_nil.
  - apply take_app_le. lia.
Qed.

Lemma elems_append growslice zero s x :
  elems (append growslice zero s x) = elems s ++ [x].
Proof. unfold append. now destruct (spare s). Qed.

Lemma len_append growslice zero s x :
  len (append growslice zero s x) = len s + 1.
Proof.
  unfold len. rewrite elems_append, length_app. simpl. lia.
Qed.

End Slices.

End GoFacts.

(* --------------------------------------------------------------------- *)
(** ** The hash type tracker                                              *)
(* --------------------------------------------------------------------- *)

Module ContextualFacts.
Import Go GoFacts Contextual.

(** Unfolds a method down to the slice operations it performs. *)
Ltac method :=
  unfold newHash, setToken, getToken, setType, getType, closeHash,
    bind, get, put, lift, ret; simpl.

Section Tracker.
Variable Token : Type.
Variable growslice : nat -> nat.

Local Abbreviation hashHelper := (Contextual.hashHelper Token).
Local Abbreviation hash := (Contextual.hash Token).
Local Abbreviation exec := (Contextual.exec Token growslice).
Local Abbreviation exec_all := (Contextual.exec_all Token growslice).
Local Abbreviation reachable := (Contextual.reachable Token growslice).
Local Abbreviation newHash := (Contextual.newHash Token growslice).
Local Abbreviation closeHash := (Contextual.closeHash Token).
Local Abbreviation getType := (Contextual.getType Token).
Local Abbreviation setType := (Contextual.setType Token).
Local Abbreviation getToken := (Contextual.getToken Token).
Local Abbreviation setToken := (Contextual.setToken Token).
Local Abbreviation frames := (Contextual.frames Token).
Local Abbreviation top := (Contextual.top Token).
Local Abbreviation wf := (Contextual.wf Token).
Local Abbreviation observed_type := (Contextual.observed_type Token growslice).

Implicit Types (h : hashHelper) (cs : list (call Token)).

Lemma newHash_Ok h :
  newHash h =
  Ok (tt, {| levels := levels h + 1;
             hashs := append growslice (zero_hash Token) (hashs h)
                        (zero_hash Token) |}).
Proof. reflexivity. Qed.

Lemma newHash_frames h h' :
  newHash h = Ok (tt, h') ->
  levels h' = levels h + 1 /\ frames h' = frames h ++ [zero_hash Token].
Proof.
  rewrite newHash_Ok. intros [= <-]. simpl. split; [reflexivity|].
  apply elems_append.
Qed.

Lemma closeHash_open h :
  wf h -> 0 <= levels h ->
  exists h', closeHash h = Ok (tt, h') /\
    levels h' = levels h - 1 /\
    frames h' = take (length (frames h) - 1) (frames h).
Proof.
  unfold Contextual.wf. intros Hwf Hl.
  destruct (reslice_to_within (hashs h) (levels h)) as (s' & Hs & He); [lia|].
  method. rewrite Hs. eexists; split; [reflexivity|]. simpl.
  split; [reflexivity|].
  unfold Contextual.frames. simpl. rewrite He. f_equal.
  unfold len in Hwf. lia.
Qed.

Lemma setType_open h k :
  wf h -> 0 <= levels h ->
  exists e, elems (hashs h) !! Z.to_nat (levels h) = Some e /\
    setType k h =
    Ok (tt, {| levels := levels h;
               hashs := Slice (<[Z.to_nat (levels h) :=
                                  {| token := token e; key := k |}]>
                                 (elems (hashs h)))
                              (spare (hashs h)) |}).
Proof.
  unfold Contextual.wf. intros Hwf Hl.
  destruct (index_in_range (hashs h) (levels h)) as (e & Hi & He); [lia|].
  exists e. split; [exact He|].
  method. rewrite Hi. rewrite store_in_range by lia. reflexivity.
Qed.

Lemma setToken_open h tok :
  wf h -> 0 <= levels h ->
  exists e, elems (hashs h) !! Z.to_nat (levels h) = Some e /\
    setToken tok h =
    Ok (tt, {| levels := levels h;
               hashs := Slice (<[Z.to_nat (levels h) :=
                                  {| token := tok; key := key e |}]>
                                 (elems (hashs h)))
                              (spare (hashs h)) |}).
Proof.
  unfold Contextual.wf. intros Hwf Hl.
  destruct (index_in_range (hashs h) (levels h)) as (e & Hi & He); [lia|].
  exists e. split; [exact He|].
  method. destruct (Z.ltb_spec (-1) (levels h)); [|lia].
  rewrite Hi. rewrite store_in_range by lia. reflexivity.
Qed.

Lemma getType_open h :
  wf h -> 0 <= levels h ->
  exists e, top h = Some e /\ getType h = Ok (key e, h).
Proof.
  unfold Contextual.wf. intros Hwf Hl.
  destruct (index_in_range (hashs h) (levels h)) as (e & Hi & He); [lia|].
  exists e. split.
  - unfold Contextual.top, Contextual.frames. rewrite last_lookup, <- He.
    f_equal. unfold len in Hwf. lia.
  - method. destruct (Z.ltb_spec (-1) (levels h)); [|lia].
    now rewrite Hi.
Qed.

(** Every method keeps the counter and the slice in step. *)
Lemma exec_wf c h h' : wf h -> exec c h = Ok h' -> wf h'.
Proof.
  intros Hwf. destruct c as [|tok| |k| |]; simpl.
  - intros [= <-]. unfold Contextual.wf in *. simpl. rewrite len_append. lia.
  - destruct (Z.ltb_spec (-1) (levels h)) as [Hl|Hl].
    + destruct (setToken_open h tok Hwf) as (e & _ & ->); [lia|].
      intros [= <-]. unfold Contextual.wf, len in *. simpl. rewrite length_insert.
      exact Hwf.
    + method. destruct (Z.ltb_spec (-1) (levels h)); [lia|].
      now intros [= <-].
  - method. destruct (index _ _); [|discriminate]. now intros [= <-].
  - destruct (Z.le_gt_cases 0 (levels h)) as [Hl|Hl].
    + destruct (setType_open h k Hwf Hl) as (e & _ & ->).
      intros [= <-]. unfold Contextual.wf, len in *. simpl. rewrite length_insert.
      exact Hwf.
    + method. rewrite index_out_of_range by lia. discriminate.
  - method. destruct (-1 <? levels h).
    + destruct (index _ _); [|discriminate]. now intros [= <-].
    + now intros [= <-].
  - destruct (Z.le_gt_cases 0 (levels h)) as [Hl|Hl].
    + destruct (closeHash_open h Hwf Hl) as (h1 & -> & Hl1 & Hf1).
      intros [= <-]. unfold Contextual.wf, len in *.
      unfold Contextual.frames in Hf1. rewrite Hf1, length_take. lia.
    + method. rewrite reslice_to_negative by lia. discriminate.
Qed.

Lemma reachable_wf h : reachable h -> wf h.
Proof.
  induction 1 as [|c h h' _ IH Hc].
  - reflexivity.
  - exact (exec_wf c h h' IH Hc).
Qed.

(** A balanced sequence read with [d] of its frames open removes exactly
    those [d] frames and leaves the ones below as they were. *)
Lemma balanced_from_exec cs : forall d h,
  wf h -> balanced_from Token d cs = true ->
  (d <= length (frames h))%nat ->
  exists h', exec_all cs h = Ok h' /\ wf h' /\
    frames h' = take (length (frames h) - d) (frames h).
Proof.
  induction cs as [|c cs IH]; intros d h Hwf Hb Hd.
  - destruct d; [|discriminate]. exists h. simpl.
    rewrite Nat.sub_0_r, firstn_all. auto.
  - destruct c; simpl in Hb; try discriminate.
    + assert (Hwf1 : wf (mk_hashHelper Token (levels h + 1)
               (append growslice (zero_hash Token) (hashs h)
                  (zero_hash Token)))).
      { apply (exec_wf NewHash h); [exact Hwf | reflexivity]. }
      destruct (IH (S d) _ Hwf1 Hb) as (h' & He & Hwf' & Hf).
      { unfold Contextual.frames in *. simpl.
        rewrite elems_append, length_app. simpl. lia. }
      exists h'. split; [exact He|]. split; [exact Hwf'|].
      rewrite Hf. unfold Contextual.frames in *. simpl.
      rewrite elems_append, length_app. simpl.
      replace (length (elems (hashs h)) + 1 - S d)%nat
        with (length (elems (hashs h)) - d)%nat by lia.
      apply take_app_le. lia.
    + destruct d as [|d]; [discriminate|].
      assert (Hl : 0 <= levels h).
      { unfold Contextual.wf, len in Hwf. unfold Contextual.frames in Hd. lia. }
      destruct (closeHash_open h Hwf Hl) as (h1 & Hc & _ & Hf1).
      assert (Hwf1 : wf h1).
      { apply (exec_wf CloseHash h); [exact Hwf|]. simpl. now rewrite Hc. }
      destruct (IH d h1 Hwf1 Hb) as (h' & He & Hwf' & Hf).
      { rewrite Hf1, length_take. lia. }
      exists h'. simpl. rewrite Hc. split; [exact He|].
      split; [exact Hwf'|].
      rewrite Hf, Hf1, length_take, take_take. f_equal. lia.
Qed.


Lemma reachable_exec_all cs : forall h h',
  reachable h -> exec_all cs h = Ok h' -> reachable h'.
Proof.
  induction cs as [|c cs IH]; intros h h' Hr; simpl.
  - now intros [= <-].
  - destruct (exec c h) as [h1|] eqn:Hc; [|discriminate].
    apply IH. exact (reachable_call _ _ c h h1 Hr Hc).
Qed.

(** C2: from any state the tracker can reach, a balanced sequence of
    [newHash]/[closeHash] calls runs without a panic and brings back the
    [levels] counter, the length of the frame list and the frames
    themselves; in particular, with a frame open, [closeHash] right after
    [newHash] leaves the frame list as long as before the [newHash]. *)
Theorem balanced_calls_restore_depth h :
  reachable h ->
  (forall cs, balanced Token cs = true ->
     exists h', exec_all cs h = Ok h' /\
       levels h' = levels h /\
       len (hashs h') = len (hashs h) /\
       frames h' = frames h) /\
  (0 <= levels h ->
     exists h1 h2, newHash h = Ok (tt, h1) /\ closeHash h1 = Ok (tt, h2) /\
       length (frames h2) = length (frames h)).
Proof.
  intros Hr. pose proof (reachable_wf h Hr) as Hwf.
  assert (Hall : forall cs, balanced Token cs = true ->
     exists h', exec_all cs h = Ok h' /\
       levels h' = levels h /\
       len (hashs h') = len (hashs h) /\
       frames h' = frames h).
  { intros cs Hb.
    destruct (balanced_from_exec cs 0 h Hwf Hb) as (h' & He & Hwf' & Hf);
      [lia|].
    rewrite Nat.sub_0_r, firstn_all in Hf.
    assert (Hlen : len (hashs h') = len (hashs h)).
    { unfold len. unfold Contextual.frames in Hf. now rewrite Hf. }
    exists h'. repeat split; try assumption.
    unfold Contextual.wf in *. lia. }
  split; [exact Hall|].
  intros _.
  destruct (Hall [NewHash; CloseHash] eq_refl) as (h2 & He & _ & _ & Hf).
  simpl in He.
  destruct (closeHash _) as [[[] h2']|] eqn:Hc; [|discriminate].
  injection He as ->.
  eexists _, h2. split; [apply newHash_Ok|]. split; [exact Hc|].
  now rewrite Hf.
Qed.

(** C4: with no frame open ([levels == -1]) [getType] returns [HCOMPLEX]
    and does not panic; on a reachable state with a frame open it returns
    the key type of the top frame. *)
Theorem getType_guarded h :
  (levels h = -1 -> getType h = Ok (HCOMPLEX, h)) /\
  (reachable h -> 0 <= levels h ->
     exists e, top h = Some e /\ getType h = Ok (key e, h)).
Proof.
  split.
  - intros Hl. method. now rewrite Hl.
  - intros Hr Hl. apply getType_open; [now apply reachable_wf | exact Hl].
Qed.

(** C5, as amended: [setType] overwrites.  On a reachable state with a
    frame open, after observing any key types and then [k], [getType]
    reports [k], whatever the frame held and whatever was observed before;
    so observing Integer twice yields Integer. *)
Theorem setType_last_observation_wins h :
  reachable h -> 0 <= levels h ->
  (forall ks k, observed_type (ks ++ [k]) h = Ok k) /\
  observed_type [HINTEGER; HINTEGER] h = Ok HINTEGER.
Proof.
  intros Hr Hl.
  assert (Hgen : forall ks h0 k, wf h0 -> 0 <= levels h0 ->
            observed_type (ks ++ [k]) h0 = Ok k).
  { induction ks as [|k0 ks IH]; intros h0 k Hwf0 Hl0;
      unfold Contextual.observed_type; simpl.
    - destruct (setType_open h0 k Hwf0 Hl0) as (e & He & ->).
      set (h1 := mk_hashHelper _ _ _).
      assert (Hwf1 : wf h1).
      { unfold Contextual.wf, len in *. subst h1. simpl. now rewrite length_insert. }
      destruct (getType_open h1 Hwf1 Hl0) as (e1 & Ht & ->).
      f_equal. revert Ht. unfold Contextual.top, Contextual.frames.
      subst h1. simpl. rewrite last_lookup, length_insert.
      replace (pred (length (elems (hashs h0)))) with (Z.to_nat (levels h0))
        by (unfold Contextual.wf, len in Hwf0; lia).
      rewrite list_lookup_insert_eq by (eapply lookup_lt_Some; exact He).
      now intros [= <-].
    - destruct (setType_open h0 k0 Hwf0 Hl0) as (e & He & ->).
      set (h1 := mk_hashHelper _ _ _).
      assert (Hwf1 : wf h1).
      { unfold Contextual.wf, len in *. subst h1. simpl. now rewrite length_insert. }
      exact (IH h1 k Hwf1 Hl0). }
  pose proof (reachable_wf h Hr) as Hwf.
  split.
  - intros ks k. now apply Hgen.
  - exact (Hgen [HINTEGER] h HINTEGER Hwf Hl).
Qed.

(** C7: [closeHash] with no frame open ([levels == -1]) panics, on the
    slice expression; on a reachable state with a frame open it does not
    fail, and takes off the top frame. *)
Theorem closeHash_empty_panics h :
  (levels h = -1 -> closeHash h = Panic SliceBoundsOutOfRange) /\
  (reachable h -> 0 <= levels h ->
     exists h', closeHash h = Ok (tt, h') /\
       levels h' = levels h - 1 /\
       frames h' = removelast (frames h)).
Proof.
  split.
  - intros Hl. method. rewrite reslice_to_negative by lia. reflexivity.
  - intros Hr Hl.
    destruct (closeHash_open h (reachable_wf h Hr) Hl) as (h' & Hc & Hl' & Hf).
    exists h'. split; [exact Hc|]. split; [exact Hl'|].
    rewrite Hf. symmetry. rewrite removelast_firstn_len. f_equal. lia.
Qed.

(** C9: with no frame open ([levels == -1]) [getToken] and [setType] panic
    with an index out of range, whereas [getType] returns [HCOMPLEX] and
    [setToken] returns with the tracker unchanged. *)
Theorem getToken_setType_need_open_frame h :
  levels h = -1 ->
  getToken h = Panic IndexOutOfRange /\
  (forall k, setType k h = Panic IndexOutOfRange) /\
  getType h = Ok (HCOMPLEX, h) /\
  (forall tok, setToken tok h = Ok (tt, h)).
Proof.
  intros Hl. repeat split; intros; method.
  - rewrite index_out_of_range by lia. reflexivity.
  - rewrite index_out_of_range by lia. reflexivity.
  - now rewrite Hl.
  - now rewrite Hl.
Qed.

End Tracker.

Import Samples.

(** The tracker run on the samples. *)
Example nested_history_runs :
  exec_all nat double_cap nested_history newHashHelper = Ok tracker_nested.
Proof. reflexivity. Qed.

Example close_keeps_backing_array :
  closeHash nat tracker_nested
  = Ok (tt, {| levels := 0;
               hashs := Slice [mk_hash nat (Some 7%nat) HINTEGER]
                              [zero_hash nat] |}).
Proof. reflexivity. Qed.

Lemma tracker_nested_reachable :
  reachable nat double_cap tracker_nested.
Proof.
  apply (reachable_exec_all nat double_cap nested_history newHashHelper);
    [constructor | reflexivity].
Qed.

Lemma balanced_calls_restore_depth_witness :
  reachable nat double_cap tracker_nested /\
  balanced nat nested_calls = true /\
  0 <= levels tracker_nested /\
  (exists h', exec_all nat double_cap nested_calls tracker_nested = Ok h' /\
     levels h' = levels tracker_nested /\
     len (hashs h') = len (hashs tracker_nested) /\
     frames nat h' = frames nat tracker_nested) /\
  (exists h1 h2,
     newHash nat double_cap tracker_nested = Ok (tt, h1) /\
     closeHash nat h1 = Ok (tt, h2) /\
     length (frames nat h2) = length (frames nat tracker_nested)).
Proof.
  pose proof tracker_nested_reachable as Hr.
  destruct (balanced_calls_restore_depth nat double_cap tracker_nested Hr)
    as [Hall Hone].
  split; [exact Hr|]. split; [reflexivity|].
  assert (Hl : 0 <= levels tracker_nested) by (simpl; lia).
  split; [exact Hl|].
  split; [exact (Hall nested_calls eq_refl) | exact (Hone Hl)].
Defined.

Lemma getType_guarded_witness :
  (levels tracker_new = -1 /\
   getType nat tracker_new = Ok (HCOMPLEX, tracker_new)) /\
  (reachable nat double_cap tracker_nested /\
   0 <= levels tracker_nested /\
   exists e, top nat tracker_nested = Some e /\
     getType nat tracker_nested = Ok (key e, tracker_nested)).
Proof.
  split.
  - split; [reflexivity|].
    exact (proj1 (getType_guarded nat double_cap tracker_new) eq_refl).
  - pose proof tracker_nested_reachable as Hr.
    assert (Hl : 0 <= levels tracker_nested) by (simpl; lia).
    split; [exact Hr|]. split; [exact Hl|].
    exact (proj2 (getType_guarded nat double_cap tracker_nested) Hr Hl).
Defined.

(** C5, as stated, fails on [setType]: on a frame just opened, observing
    Integer, Integer, String leaves the type String, not Complex; the same
    three types with String first leave Integer, so the order matters; and
    a frame that holds Complex holds Integer after Integer is observed. *)
Lemma observe_order_sensitive :
  observed_type nat double_cap [HINTEGER; HINTEGER; HSTRING] tracker_open
    = Ok HSTRING /\
  observed_type nat double_cap [HSTRING; HINTEGER; HINTEGER] tracker_open
    = Ok HINTEGER /\
  observed_type nat double_cap [HCOMPLEX; HINTEGER] tracker_open
    = Ok HINTEGER /\
  observed_type nat double_cap [HINTEGER; HINTEGER; HSTRING] tracker_open
    <> Ok HCOMPLEX /\
  observed_type nat double_cap [HINTEGER; HINTEGER; HSTRING] tracker_open
    <> observed_type nat double_cap [HSTRING; HINTEGER; HINTEGER]
         tracker_open /\
  observed_type nat double_cap [HCOMPLEX; HINTEGER] tracker_open
    <> Ok HCOMPLEX.
Proof. vm_compute. repeat split; discriminate. Qed.

Lemma setType_last_observation_wins_witness :
  reachable nat double_cap tracker_nested /\
  0 <= levels tracker_nested /\
  observed_type nat double_cap
    [HINTEGER; HSTRING; HCOMPLEX; HINTEGER] tracker_nested = Ok HINTEGER /\
  observed_type nat double_cap [HINTEGER; HINTEGER] tracker_nested
    = Ok HINTEGER.
Proof.
  pose proof tracker_nested_reachable as Hr.
  assert (Hl : 0 <= levels tracker_nested) by (simpl; lia).
  destruct (setType_last_observation_wins nat double_cap tracker_nested Hr Hl)
    as [Hlast Htwice].
  split; [exact Hr|]. split; [exact Hl|].
  split; [exact (Hlast [HINTEGER; HSTRING; HCOMPLEX] HINTEGER) | exact Htwice].
Defined.

Lemma closeHash_empty_panics_witness :
  (levels tracker_new = -1 /\
   closeHash nat tracker_new = Panic SliceBoundsOutOfRange) /\
  (reachable nat double_cap tracker_nested /\
   0 <= levels tracker_nested /\
   exists h', closeHash nat tracker_nested = Ok (tt, h') /\
     levels h' = levels tracker_nested - 1 /\
     frames nat h' = removelast (frames nat tracker_nested)).
Proof.
  split.
  - split; [reflexivity|].
    exact (proj1 (closeHash_empty_panics nat double_cap tracker_new) eq_refl).
  - pose proof tracker_nested_reachable as Hr.
    assert (Hl : 0 <= levels tracker_nested) by (simpl; lia).
    split; [exact Hr|]. split; [exact Hl|].
    exact (proj2 (closeHash_empty_panics nat double_cap tracker_nested) Hr Hl).
Defined.

Lemma getToken_setType_need_open_frame_witness :
  levels tracker_new = -1 /\
  getToken nat tracker_new = Panic IndexOutOfRange /\
  (forall k, setType nat k tracker_new = Panic IndexOutOfRange) /\
  getType nat tracker_new = Ok (HCOMPLEX, tracker_new) /\
  (forall tok, setToken nat tok tracker_new = Ok (tt, tracker_new)).
Proof.
  split; [reflexivity|].
  exact (getToken_setType_need_open_frame nat tracker_new eq_refl).
Defined.

End ContextualFacts.

(* --------------------------------------------------------------------- *)
(** ** Attributes                                                         *)
(* --------------------------------------------------------------------- *)

Module IdentificationFacts.
Import Go Identification.

Ltac attr_method :=
  unfold getToken, markVisited, wasVisited, GetType, GetData,
    bind, ret; simpl.

Section Attribute.
Variable Token Data : Type.

Local Abbreviation attribute := (Identification.attribute Token Data).
Local Abbreviation store := (gmap addr (Identification.attribute Token Data)).
Local Abbreviation call := (Identification.call Token Data).
Local Abbreviation load := (Identification.load Token Data).
Local Abbreviation NewAttribute := (Identification.NewAttribute Token Data).
Local Abbreviation markVisited := (Identification.markVisited Token Data).
Local Abbreviation wasVisited := (Identification.wasVisited Token Data).
Local Abbreviation exec := (Identification.exec Token Data).
Local Abbreviation exec_all := (Identification.exec_all Token Data).

Implicit Types (st : store) (a : pointer) (l : addr) (x : attribute)
  (c : call).

Lemma load_Ok a st x st' :
  load a st = Ok (x, st') <-> exists l, a = Some l /\ st !! l = Some x /\ st' = st.
Proof.
  unfold Identification.load. split.
  - destruct a as [l|]; [|discriminate].
    destruct (st !! l) as [y|] eqn:Hl; [|discriminate].
    intros [= <- <-]. eauto.
  - intros (l & -> & Hl & ->). now rewrite Hl.
Qed.

(** A reader returns with the store it was given. *)
Lemma reader_keeps {B} (f : attribute -> B) a st r :
  after Token Data (bind (load a) (fun x => ret (f x)) st) = Ok r -> r = st.
Proof.
  unfold bind, ret. destruct (load a st) as [[x st']|] eqn:Hl; [|discriminate].
  apply load_Ok in Hl as (l & _ & _ & ->). simpl. now intros [= <-].
Qed.

Lemma markVisited_Ok a st st1 :
  markVisited a st = Ok (tt, st1) <->
  exists l x, a = Some l /\ st !! l = Some x /\
    st1 = <[l := {| expression := expression x; token := token x;
                    visited := true; data := data x |}]> st.
Proof.
  attr_method. split.
  - destruct (load a st) as [[x st']|] eqn:Hl; [|discriminate].
    apply load_Ok in Hl as (l & -> & Hl & ->).
    unfold assign. rewrite Hl. intros [= <-]. eauto.
  - intros (l & x & -> & Hl & ->). unfold Identification.load, assign.
    rewrite Hl. simpl. now rewrite Hl.
Qed.

Lemma wasVisited_Ok l st x :
  st !! l = Some x -> wasVisited (Some l) st = Ok (visited x, st).
Proof. intros Hl. attr_method. unfold Identification.load. now rewrite Hl. Qed.

(** No call other than [markVisited] changes an attribute of the store. *)
Lemma exec_other_keeps c st st' l x :
  is_mark Token Data c = false ->
  exec c st = Ok st' -> st !! l = Some x -> st' !! l = Some x.
Proof.
  intros Hm He Hl. destruct c; simpl in *; try discriminate;
    try (apply reader_keeps in He; now subst).
  injection He as <-.
  rewrite lookup_insert_ne; [exact Hl|].
  intros Heq. pose proof (is_fresh (dom st)) as Hf.
  rewrite Heq in Hf. apply Hf, elem_of_dom. eauto.
Qed.

(** No call takes a mark back. *)
Lemma exec_keeps_mark c st st' l x :
  exec c st = Ok st' -> st !! l = Some x -> visited x = true ->
  exists x', st' !! l = Some x' /\ visited x' = true.
Proof.
  intros He Hl Hv. destruct (is_mark Token Data c) eqn:Hm.
  - destruct c; try discriminate. simpl in He.
    destruct (markVisited a st) as [[[] st1]|] eqn:Hk; [|discriminate].
    injection He as <-.
    apply markVisited_Ok in Hk as (l0 & y & -> & Hy & ->).
    destruct (decide (l0 = l)) as [->|Hne].
    + rewrite lookup_insert_eq. eauto.
    + rewrite lookup_insert_ne by exact Hne. eauto.
  - exists x. split; [|exact Hv]. exact (exec_other_keeps c st st' l x Hm He Hl).
Qed.

Lemma exec_all_keeps_mark cs : forall st st' l x,
  exec_all cs st = Ok st' -> st !! l = Some x -> visited x = true ->
  exists x', st' !! l = Some x' /\ visited x' = true.
Proof.
  induction cs as [|c cs IH]; intros st st' l x; simpl.
  - intros [= <-]. eauto.
  - destruct (exec c st) as [st1|] eqn:He; [|discriminate].
    intros Hall Hl Hv.
    destruct (exec_keeps_mark c st st1 l x He Hl Hv) as (x1 & Hl1 & Hv1).
    exact (IH st1 st' l x1 Hall Hl1 Hv1).
Qed.

(** C8: an attribute is created unvisited; [markVisited] is idempotent and
    is the only call that changes a stored attribute; no call resets the
    flag; so once an attribute is marked, [wasVisited] returns true after
    any further calls. *)
Theorem visited_only_rises :
  (forall e t d st, exists l st',
     NewAttribute e t d st = Ok (Some l, st') /\ st !! l = None /\
     wasVisited (Some l) st' = Ok (false, st')) /\
  (forall a st st1,
     markVisited a st = Ok (tt, st1) -> markVisited a st1 = Ok (tt, st1)) /\
  (forall c st st' l x,
     is_mark Token Data c = false -> exec c st = Ok st' ->
     st !! l = Some x -> st' !! l = Some x) /\
  (forall c st st' l x,
     exec c st = Ok st' -> st !! l = Some x -> visited x = true ->
     exists x', st' !! l = Some x' /\ visited x' = true) /\
  (forall a st st1 cs st2,
     markVisited a st = Ok (tt, st1) -> exec_all cs st1 = Ok st2 ->
     wasVisited a st2 = Ok (true, st2)).
Proof.
  split; [|split; [|split; [|split]]].
  - intros e t d st. eexists _, _. split; [reflexivity|]. split.
    + apply not_elem_of_dom, is_fresh.
    + rewrite (wasVisited_Ok _ _ _ (lookup_insert_eq _ _ _)). reflexivity.
  - intros a st st1 Hk.
    apply markVisited_Ok in Hk as (l & x & -> & Hl & ->).
    apply markVisited_Ok. eexists l, _. split; [reflexivity|].
    split; [apply lookup_insert_eq|]. simpl. now rewrite insert_insert_eq.
  - exact exec_other_keeps.
  - exact exec_keeps_mark.
  - intros a st st1 cs st2 Hk Hall.
    apply markVisited_Ok in Hk as (l & x & -> & Hl & ->).
    destruct (exec_all_keeps_mark cs _ st2 l _ Hall (lookup_insert_eq _ _ _))
      as (x' & Hl' & Hv'); [reflexivity|].
    rewrite (wasVisited_Ok l st2 x' Hl'). now rewrite Hv'.
Qed.

End Attribute.

Import Samples.

Lemma visited_only_rises_witness :
  markVisited nat unit (Some 0%nat) one_identifier
    = Ok (tt, marked_identifier) /\
  exec_all nat unit later_calls marked_identifier = Ok two_marked /\
  wasVisited nat unit (Some 0%nat) two_marked = Ok (true, two_marked).
Proof.
  assert (Hmark : markVisited nat unit (Some 0%nat) one_identifier
                  = Ok (tt, marked_identifier)) by (vm_compute; reflexivity).
  assert (Hall : exec_all nat unit later_calls marked_identifier
                 = Ok two_marked) by (vm_compute; reflexivity).
  split; [exact Hmark|]. split; [exact Hall|].
  exact (proj2 (proj2 (proj2 (proj2 (visited_only_rises nat unit))))
           (Some 0%nat) one_identifier marked_identifier later_calls
           two_marked Hmark Hall).
Defined.

End IdentificationFacts.

(* --------------------------------------------------------------------- *)
(** ** Addition chains                                                    *)
(* --------------------------------------------------------------------- *)

Module CodegeneratorFacts.
Import Go Codegenerator.

Section Visitor.
Variable MulExpr Factor : Type.
Variable visitor : Type.
Variable Visit : option (tree MulExpr Factor) -> M visitor unit.

Local Abbreviation chain := (Codegenerator.chain MulExpr Factor).
Local Abbreviation additionLoop :=
  (Codegenerator.additionLoop MulExpr Factor visitor Visit).
Local Abbreviation VisitAdditionTree :=
  (Codegenerator.VisitAdditionTree MulExpr Factor visitor Visit).
Local Abbreviation visit_all :=
  (Codegenerator.visit_all MulExpr Factor visitor Visit).

Implicit Types (a : MulExpr) (rest : list (Factor * MulExpr)).

Lemma chain_operands a0 rest :
  AllMultiplicationExpression _ _ (chain a0 rest) = a0 :: map snd rest.
Proof.
  unfold AllMultiplicationExpression. simpl. f_equal.
  induction rest as [|[op a] rest IH]; simpl; [reflexivity|].
  now rewrite IH.
Qed.

Lemma chain_factors a0 rest :
  AllAdditionFactor _ _ (chain a0 rest) = map fst rest.
Proof.
  unfold AllAdditionFactor. simpl.
  induction rest as [|[op a] rest IH]; simpl; [reflexivity|].
  now rewrite IH.
Qed.

Lemma chain_operand_at a0 rest i op a :
  rest !! i = Some (op, a) ->
  MultiplicationExpression _ _ (chain a0 rest) (Z.of_nat (S i))
  = Some (MulNode a).
Proof.
  intros Hi. unfold MultiplicationExpression.
  destruct (Z.ltb_spec (Z.of_nat (S i)) 0); [lia|].
  rewrite chain_operands, Nat2Z.id. simpl.
  now rewrite list_lookup_fmap, Hi.
Qed.

Lemma chain_factor_at a0 rest i op a :
  rest !! i = Some (op, a) ->
  AdditionFactor _ _ (chain a0 rest) (Z.of_nat (S i) - 1)
  = Some (FactorNode op).
Proof.
  intros Hi. unfold AdditionFactor.
  destruct (Z.ltb_spec (Z.of_nat (S i) - 1) 0); [lia|].
  rewrite chain_factors.
  replace (Z.to_nat (Z.of_nat (S i) - 1)) with i by lia.
  now rewrite list_lookup_fmap, Hi.
Qed.

(** The loop entered at operand [i + 1] visits what is left of the chain,
    operand before operator. *)
Lemma additionLoop_chain a0 rest : forall k i v,
  (i + k = length rest)%nat ->
  additionLoop (chain a0 rest) (Z.of_nat (S (length rest)))
    (Z.of_nat (S i)) v
  = visit_all
      (flat_map (fun p => [MulNode (snd p); FactorNode (fst p)])
         (drop i rest)) v.
Proof.
  induction k as [|k IH]; intros i v Hk; simp additionLoop;
    destruct (Z_lt_dec _ _) as [Hlt|Hge]; simpl; try lia.
  - rewrite drop_ge by lia. reflexivity.
  - destruct (lookup_lt_is_Some_2 rest i) as [[op a] Hi]; [lia|].
    rewrite (drop_S _ _ _ Hi). simpl.
    rewrite (chain_operand_at a0 rest i op a Hi).
    rewrite (chain_factor_at a0 rest i op a Hi).
    unfold bind.
    destruct (Visit (Some (MulNode a)) v) as [[[] v1]|]; [|reflexivity].
    destruct (Visit (Some (FactorNode op)) v1) as [[[] v2]|]; [|reflexivity].
    replace (Z.of_nat (S i) + 1) with (Z.of_nat (S (S i))) by lia.
    apply IH. lia.
Qed.

(** On a chain, [VisitAdditionTree] visits [a0, a1, op1, ..., ak, opk] in
    this order, and stops at the first visit that panics. *)
Lemma VisitAdditionTree_order a0 rest v :
  VisitAdditionTree (chain a0 rest) v
  = visit_all (chain_order _ _ a0 rest) v.
Proof.
  unfold Codegenerator.VisitAdditionTree, chain_order.
  rewrite chain_operands.
  replace (MultiplicationExpression _ _ (chain a0 rest) 0)
    with (Some (MulNode (Factor := Factor) a0)).
  2: { unfold MultiplicationExpression.
       destruct (Z.ltb_spec 0 0); [lia|]. now rewrite chain_operands. }
  cbn [Codegenerator.visit_all]. unfold bind.
  destruct (Visit (Some (MulNode a0)) v) as [[[] v1]|]; [|reflexivity].
  cbn [length]. rewrite length_map.
  pose proof (additionLoop_chain a0 rest (length rest) 0 v1 eq_refl) as Hloop.
  change (Z.of_nat 1) with 1 in Hloop. rewrite Hloop.
  now rewrite drop_0.
Qed.

End Visitor.

Section Stream.
Variable MulExpr Factor Instr : Type.
Variable code : MulExpr -> list Instr.
Variable opcode : Factor -> Instr.
Variable Visit : option (tree MulExpr Factor) -> M (list Instr) unit.

Local Abbreviation chain_code :=
  (Codegenerator.chain_code MulExpr Factor Instr code opcode).

Lemma chain_code_length a0 rest :
  length (chain_code a0 rest)
  = (operand_code_size _ _ _ code a0 rest + length rest)%nat.
Proof.
  unfold Codegenerator.chain_code, operand_code_size. rewrite length_app.
  rewrite <- Nat.add_assoc. f_equal.
  induction rest as [|[op a] rest IH]; simpl; [reflexivity|].
  rewrite !length_app, IH. simpl. lia.
Qed.

Lemma visit_all_stream rest :
  (forall m s, Visit (Some (MulNode m)) s = Ok (tt, s ++ code m)) ->
  (forall f s, Visit (Some (FactorNode f)) s = Ok (tt, s ++ [opcode f])) ->
  forall s,
  visit_all MulExpr Factor (list Instr) Visit
    (flat_map (fun p => [MulNode (snd p); FactorNode (fst p)]) rest) s
  = Ok (tt, s ++ flat_map (fun p => code (snd p) ++ [opcode (fst p)]) rest).
Proof.
  intros Hm Hf.
  induction rest as [|[op a] rest IH]; intros s; simpl.
  - now rewrite app_nil_r.
  - unfold bind. rewrite Hm, Hf, IH. now rewrite <- !app_assoc.
Qed.

(** C1: when visiting an operand appends its code to the instruction
    stream and visiting a factor appends its one operator instruction,
    [VisitAdditionTree] on the chain [a0 op1 a1 ... opk ak] appends
    [code(a0) code(a1) op1 ... code(ak) opk]: next to the operands' code,
    exactly [k] operator instructions for the [k + 1] operands. *)
Theorem VisitAdditionTree_stream a0 rest v :
  (forall m s, Visit (Some (MulNode m)) s = Ok (tt, s ++ code m)) ->
  (forall f s, Visit (Some (FactorNode f)) s = Ok (tt, s ++ [opcode f])) ->
  VisitAdditionTree MulExpr Factor (list Instr) Visit
    (chain MulExpr Factor a0 rest) v
  = Ok (tt, v ++ chain_code a0 rest) /\
  length (chain_code a0 rest)
  = (operand_code_size _ _ _ code a0 rest + length rest)%nat.
Proof.
  intros Hm Hf. split; [|apply chain_code_length].
  rewrite VisitAdditionTree_order.
  unfold chain_order, Codegenerator.chain_code.
  cbn [Codegenerator.visit_all]. unfold bind.
  rewrite Hm, (visit_all_stream rest Hm Hf).
  now rewrite <- app_assoc.
Qed.

End Stream.

Import Samples.

Lemma VisitAdditionTree_stream_witness :
  (forall m s, literal_Visit (Some (MulNode m)) s
               = Ok (tt, s ++ literal_code m)) /\
  (forall f s, literal_Visit (Some (FactorNode f)) s
               = Ok (tt, s ++ [factor_opcode f])) /\
  VisitAdditionTree Z bool (list instr) literal_Visit
    (chain Z bool 1 one_plus_two_plus_three) []
  = Ok (tt, [Push 1; Push 2; Add; Push 3; Add]) /\
  length (chain_code Z bool instr literal_code factor_opcode 1
            one_plus_two_plus_three) = (3 + 2)%nat.
Proof.
  assert (Hm : forall m s, literal_Visit (Some (MulNode m)) s
                           = Ok (tt, s ++ literal_code m))
    by (intros; reflexivity).
  assert (Hf : forall f s, literal_Visit (Some (FactorNode f)) s
                           = Ok (tt, s ++ [factor_opcode f]))
    by (intros; reflexivity).
  split; [exact Hm|]. split; [exact Hf|].
  exact (VisitAdditionTree_stream Z bool instr literal_code factor_opcode
           literal_Visit 1 one_plus_two_plus_three [] Hm Hf).
Defined.

(** The loop run on [1 + 2 + 3] and on [7]; a node without children makes
    this visitor panic on the nil operand. *)
Example sum_of_three :
  VisitAdditionTree Z bool (list instr) literal_Visit
    (chain Z bool 1 one_plus_two_plus_three) []
  = Ok (tt, [Push 1; Push 2; Add; Push 3; Add]).
Proof. vm_compute. reflexivity. Qed.

Example single_operand :
  VisitAdditionTree Z bool (list instr) literal_Visit (chain Z bool 7 []) []
  = Ok (tt, [Push 7]).
Proof. vm_compute. reflexivity. Qed.

Example no_operand :
  VisitAdditionTree Z bool (list instr) literal_Visit
    (mk_AdditionTreeContext Z bool []) []
  = Panic NilDereference.
Proof. vm_compute. reflexivity. Qed.

End CodegeneratorFacts.

(* --------------------------------------------------------------------- *)
(** ** The compile and run handlers                                       *)
(* --------------------------------------------------------------------- *)

Module HandlerFacts.
Import Go Handler.

Local Open Scope string_scope.

Lemma append_cons (x : ascii) (a b : string) :
  String x a +:+ b = String x (a +:+ b).
Proof. reflexivity. Qed.

Lemma append_assoc (a b c : string) : (a +:+ b) +:+ c = a +:+ b +:+ c.
Proof.
  induction a as [|x a IH]; [reflexivity|].
  rewrite !append_cons. f_equal. exact IH.
Qed.

Lemma list_ascii_of_append (a b : string) :
  list_ascii_of_string (a +:+ b)
  = (list_ascii_of_string a ++ list_ascii_of_string b)%list.
Proof.
  induction a as [|x a IH]; [reflexivity|].
  rewrite append_cons. cbn [list_ascii_of_string app]. f_equal. exact IH.
Qed.

Lemma ends_in_append (front s suffix : string) :
  ends_in s suffix -> ends_in (front +:+ s) suffix.
Proof.
  intros [f ->]. exists (front +:+ f). symmetry. apply append_assoc.
Qed.

Lemma ends_in_refl (s : string) : ends_in s s.
Proof. now exists "". Qed.

(** The two endings tell the results apart: they differ in the third
    character from the end. *)
Lemma failed_not_finished (s : string) :
  ends_in s "...failed" -> ends_in s "...finished" -> False.
Proof.
  intros [p ->] [q Hq].
  apply (f_equal list_ascii_of_string) in Hq.
  rewrite !list_ascii_of_append in Hq.
  apply (f_equal (@rev ascii)) in Hq.
  rewrite !rev_app_distr in Hq. simpl in Hq. congruence.
Qed.

Section Handlers.
Variable InstructionsCode VM : string.
Variable TrimSpace : string -> string.
Variable Tree Graph : Type.

Local Abbreviation world := (Handler.world Tree Graph).
Local Abbreviation parsing :=
  (Handler.parsing InstructionsCode Tree Graph).
Local Abbreviation parseErrors :=
  (Handler.parseErrors InstructionsCode Tree Graph).
Local Abbreviation parseLines :=
  (Handler.parseLines InstructionsCode Tree Graph).
Local Abbreviation parsing_log :=
  (Handler.parsing_log InstructionsCode Tree Graph).
Local Abbreviation syntax_clean := (Handler.syntax_clean Tree Graph).
Local Abbreviation context_clean := (Handler.context_clean Tree Graph).
Local Abbreviation save_error :=
  (Handler.save_error InstructionsCode Tree Graph).
Local Abbreviation compiled := (Handler.compiled InstructionsCode Tree Graph).
Local Abbreviation run :=
  (Handler.run InstructionsCode VM TrimSpace Tree Graph).

Ltac handler :=
  unfold Handler.compiled in *;
  unfold Handler.parseErrors, Handler.parseLines, Handler.parsing_log,
    Handler.parsing, Handler.run, Handler.save, Handler.syntax_clean,
    Handler.context_clean, Handler.save_error,
    andthen, call, pure in *; simpl in *.


(** C6: the code generator runs on a tree only after contextual analysis
    ran on that tree and reported nothing; so for a program whose
    contextual analysis reports at least one error the code generator is
    not invoked. *)
Theorem codegen_only_after_clean_analysis (w : world) (program : string) :
  (forall t, In (EvCodegen t) (parsing_log w program) ->
     t = fst (Program _ _ w program) /\
     In (EvContextual t) (parsing_log w program) /\
     is_nil (Errors (contextualVisit _ _ w t)) = true /\
     len (Errors (contextualVisit _ _ w t)) = 0%Z) /\
  ((0 < len (Errors (contextualVisit _ _ w (fst (Program _ _ w program)))))%Z
   -> forall t, ~ In (EvCodegen t) (parsing_log w program)).
Proof.
  assert (Hnil : forall (s : slice string), is_nil s = true -> len s = 0%Z).
  { intros [|e sp]; [reflexivity | discriminate]. }
  handler.
  destruct (is_nil (Errors (snd (Program _ _ w program)))) eqn:Hs; simpl.
  2: { split.
       - intros t [H|[H|[]]]; discriminate.
       - intros _ t [H|[H|[]]]; discriminate. }
  destruct (is_nil (Errors (contextualVisit _ _ w _))) eqn:Hx; simpl.
  2: { split.
       - intros t [H|[H|[H|[]]]]; discriminate.
       - intros _ t [H|[H|[H|[]]]]; discriminate. }
  split.
  - intros t Hin.
    assert (Ht : t = fst (Program _ _ w program)).
    { destruct (WriteFile _ _ w _ _); simpl in Hin;
        destruct Hin as [H|[H|[H|[H|[H|[]]]]]]; congruence. }
    subst t. split; [reflexivity|]. split.
    + right. right. left. reflexivity.
    + split; [exact Hx | exact (Hnil _ Hx)].
  - intros Hpos. rewrite (Hnil _ Hx) in Hpos. lia.
Qed.

(** C10: when [os.Stat] fails on the instructions file, [run] returns a
    string that contains the not-found message and ends in [...failed],
    and the virtual machine is not launched; every result of [run] ends in
    exactly one of [...finished] (the file is there and the machine ran
    without error) and [...failed] (the file is missing or the machine
    failed). *)
Theorem run_result (w : world) :
  (Stat _ _ w InstructionsCode <> None ->
     contains (fst (run w))
       "Instructions code not found. Must compile first." /\
     ends_in (fst (run w)) "...failed" /\
     forall name args, ~ In (EvExec name args) (snd (run w))) /\
  ((ends_in (fst (run w)) "...finished" /\
    ~ ends_in (fst (run w)) "...failed" /\
    Stat _ _ w InstructionsCode = None /\
    snd (Output _ _ w VM [InstructionsCode]) = None) \/
   (ends_in (fst (run w)) "...failed" /\
    ~ ends_in (fst (run w)) "...finished" /\
    (Stat _ _ w InstructionsCode <> None \/
     snd (Output _ _ w VM [InstructionsCode]) <> None))).
Proof.
  handler.
  destruct (Stat _ _ w InstructionsCode) as [e|]; simpl.
  - assert (He : ends_in
      ("Instructions code not found. Must compile first." +:+ nl +:+
       TrimSpace e +:+ nl +:+ "...failed") "...failed").
    { do 4 apply ends_in_append. apply ends_in_refl. }
    split.
    + intros _. split; [|split; [exact He|]].
      * exists "". eexists. reflexivity.
      * intros name args [H|[]]. discriminate.
    + right. split; [exact He|]. split.
      * intros Hf. exact (failed_not_finished _ He Hf).
      * left. discriminate.
  - split; [intros H; now contradiction H|].
    destruct (Output _ _ w VM [InstructionsCode]) as [out [e|]]; simpl.
    + assert (He : ends_in (TrimSpace e +:+ nl +:+ "...failed") "...failed").
      { do 2 apply ends_in_append. apply ends_in_refl. }
      right. split; [exact He|]. split.
      * intros Hf. exact (failed_not_finished _ He Hf).
      * right. discriminate.
    + assert (He : ends_in (TrimSpace out +:+ nl +:+ "...finished")
                     "...finished").
      { do 2 apply ends_in_append. apply ends_in_refl. }
      left. split; [exact He|]. split; [|auto].
      intros Hf. exact (failed_not_finished _ Hf He).
Qed.

End Handlers.

Import Samples.



Lemma codegen_only_after_clean_analysis_witness :
  (0 < len (Errors (contextualVisit _ _ undeclared_world
                      (fst (Program _ _ undeclared_world "x + 1")))))%Z /\
  forall t,
    ~ In (EvCodegen t)
        (parsing_log instructions_file string unit undeclared_world "x + 1").
Proof.
  assert (Hpos : (0 < len (Errors (contextualVisit _ _ undeclared_world
                     (fst (Program _ _ undeclared_world "x + 1")))))%Z)
    by reflexivity.
  split; [exact Hpos|].
  exact (proj2 (codegen_only_after_clean_analysis instructions_file string
                  unit undeclared_world "x + 1") Hpos).
Defined.

Lemma run_result_witness :
  Stat _ _ undeclared_world instructions_file <> None /\
  contains
    (fst (run instructions_file vm_binary trim_space string unit
            undeclared_world))
    "Instructions code not found. Must compile first." /\
  ends_in
    (fst (run instructions_file vm_binary trim_space string unit
            undeclared_world))
    "...failed" /\
  forall name args,
    ~ In (EvExec name args)
        (snd (run instructions_file vm_binary trim_space string unit
                undeclared_world)).
Proof.
  assert (Hstat : Stat _ _ undeclared_world instructions_file <> None)
    by discriminate.
  split; [exact Hstat|].
  exact (proj1 (run_result instructions_file vm_binary trim_space string unit
                  undeclared_world) Hstat).
Defined.

(** The handlers run on the sample worlds. *)
Example run_clean :
  run instructions_file vm_binary trim_space string unit clean_world
  = ("6" +:+ nl +:+ "...finished",
     [EvStat instructions_file; EvExec vm_binary [instructions_file]]).
Proof. vm_compute. reflexivity. Qed.

Example run_missing_file :
  run instructions_file vm_binary trim_space string unit undeclared_world
  = ("Instructions code not found. Must compile first." +:+ nl +:+
     "stat instructions.mky: no such file" +:+ nl +:+ "...failed",
     [EvStat instructions_file]).
Proof. vm_compute. reflexivity. Qed.

Example parsing_clean :
  parsing instructions_file string unit clean_world "1 + 2"
  = (Slice [] [], Slice [] [], tt,
     [EvParse "1 + 2"; EvGraph "1 + 2"; EvContextual "1 + 2";
      EvCodegen "1 + 2"; EvWriteFile instructions_file "code of 1 + 2"]).
Proof. vm_compute. reflexivity. Qed.

Example parsing_undeclared :
  parsing instructions_file string unit undeclared_world "x + 1"
  = (Slice ["Undeclared x"] [], Slice [1%Z] [], tt,
     [EvParse "x + 1"; EvGraph "x + 1"; EvContextual "x + 1"]).
Proof. vm_compute. reflexivity. Qed.

End HandlerFacts.

(* ===================================================================== *)
(** * Part III: further properties of the four files                      *)
(* ===================================================================== *)

(* --------------------------------------------------------------------- *)
(** ** The hash type tracker: frames, fields and nesting                  *)
(* --------------------------------------------------------------------- *)

Module TrackerProperties.
Import Go GoFacts Contextual ContextualFacts.

Section Tracker.
Variable Token : Type.
Variable growslice : nat -> nat.

Local Abbreviation hashHelper := (Contextual.hashHelper Token).
Local Abbreviation exec := (Contextual.exec Token growslice).
Local Abbreviation exec_all := (Contextual.exec_all Token growslice).
Local Abbreviation reachable := (Contextual.reachable Token growslice).
Local Abbreviation newHash := (Contextual.newHash Token growslice).
Local Abbreviation closeHash := (Contextual.closeHash Token).
Local Abbreviation getType := (Contextual.getType Token).
Local Abbreviation setType := (Contextual.setType Token).
Local Abbreviation getToken := (Contextual.getToken Token).
Local Abbreviation setToken := (Contextual.setToken Token).
Local Abbreviation frames := (Contextual.frames Token).
Local Abbreviation top := (Contextual.top Token).
Local Abbreviation wf := (Contextual.wf Token).

Implicit Types (h : hashHelper) (cs : list (call Token)).

Lemma wf_depth h : wf h -> levels h = Z.of_nat (length (frames h)) - 1.
Proof. intros Hwf. exact Hwf. Qed.

Lemma getToken_open h :
  wf h -> 0 <= levels h ->
  exists e, top h = Some e /\ getToken h = Ok (token e, h).
Proof.
  unfold Contextual.wf. intros Hwf Hl.
  destruct (index_in_range (hashs h) (levels h)) as (e & Hi & He); [lia|].
  exists e. split.
  - unfold Contextual.top, Contextual.frames. rewrite last_lookup, <- He.
    f_equal. unfold len in Hwf. lia.
  - method. now rewrite Hi.
Qed.

(** A write to a field of the top frame: the frame list with its last
    entry replaced. *)
Lemma top_written h e' :
  wf h -> 0 <= levels h ->
  let h1 := mk_hashHelper Token (levels h)
              (Slice (<[Z.to_nat (levels h) := e']> (elems (hashs h)))
                     (spare (hashs h))) in
  wf h1 /\ top h1 = Some e' /\
  removelast (frames h1) = removelast (frames h) /\
  length (frames h1) = length (frames h).
Proof.
  intros Hwf Hl. cbv zeta.
  unfold Contextual.wf, len, Contextual.top, Contextual.frames in *. simpl.
  rewrite length_insert.
  assert (Hn : Z.to_nat (levels h) = (length (elems (hashs h)) - 1)%nat)
    by lia.
  split; [exact Hwf|]. split; [|split; [|reflexivity]].
  - rewrite last_lookup, length_insert.
    replace (pred (length (elems (hashs h)))) with (Z.to_nat (levels h))
      by lia.
    apply list_lookup_insert_eq. lia.
  - rewrite !removelast_firstn_len, length_insert, Hn.
    replace (pred (length (elems (hashs h))))
      with (length (elems (hashs h)) - 1)%nat by lia.
    apply take_insert_ge. lia.
Qed.

Lemma exec_all_app cs1 cs2 h :
  exec_all (cs1 ++ cs2) h
  = match exec_all cs1 h with
    | Ok h1 => exec_all cs2 h1
    | Panic p => Panic p
    end.
Proof.
  revert h. induction cs1 as [|c cs1 IH]; intros h; simpl; [reflexivity|].
  destruct (exec c h); [apply IH | reflexivity].
Qed.

(** X1: on every state the tracker reaches, the counter is the number of
    open frames less one, it is never below -1, and it is -1 exactly when
    no frame is open. *)
Theorem reachable_counter_in_step h :
  reachable h ->
  levels h = len (hashs h) - 1 /\
  -1 <= levels h /\
  (levels h = -1 <-> frames h = []).
Proof.
  intros Hr. pose proof (reachable_wf Token growslice h Hr) as Hwf.
  unfold Contextual.wf, len, Contextual.frames in *.
  split; [exact Hwf|]. split; [lia|].
  split.
  - intros Hl. apply length_zero_iff_nil. lia.
  - intros Hn. rewrite Hn in Hwf. simpl in Hwf. lia.
Qed.

(** X2: [newHash] never panics on a reachable state, and the frame it
    opens is the zero frame, also when the slot it takes in the backing
    array still holds a frame closed earlier: right after it [getType]
    returns [HUNKNOWN] and [getToken] returns nil, and the frames below
    are as before. *)
Theorem newHash_opens_zero_frame h :
  reachable h ->
  exists h1, newHash h = Ok (tt, h1) /\
    levels h1 = levels h + 1 /\
    frames h1 = frames h ++ [zero_hash Token] /\
    getType h1 = Ok (HUNKNOWN, h1) /\
    getToken h1 = Ok (None, h1).
Proof.
  intros Hr. pose proof (reachable_wf Token growslice h Hr) as Hwf.
  eexists. split; [apply newHash_Ok|].
  set (h1 := mk_hashHelper _ _ _).
  assert (Hf : frames h1 = frames h ++ [zero_hash Token]).
  { unfold Contextual.frames. subst h1. simpl. apply elems_append. }
  assert (Hwf1 : wf h1).
  { apply (exec_wf Token growslice NewHash h); [exact Hwf | reflexivity]. }
  assert (Hl1 : 0 <= levels h1).
  { subst h1. simpl. unfold Contextual.wf, len in Hwf. lia. }
  split; [reflexivity|]. split; [exact Hf|].
  assert (Htop : top h1 = Some (zero_hash Token)).
  { unfold Contextual.top. rewrite Hf. apply last_snoc. }
  split.
  - destruct (getType_open _ h1 Hwf1 Hl1) as (e & He & ->).
    rewrite Htop in He. now injection He as <-.
  - destruct (getToken_open h1 Hwf1 Hl1) as (e & He & ->).
    rewrite Htop in He. now injection He as <-.
Qed.

(** X3: with a frame open, [setToken] does not panic and [getToken] then
    returns the token it was given; the key type of the frame, the counter
    and the frames below are as before. *)
Theorem setToken_then_getToken h tok :
  reachable h -> 0 <= levels h ->
  exists h1, setToken tok h = Ok (tt, h1) /\
    getToken h1 = Ok (tok, h1) /\
    (forall k, getType h = Ok (k, h) -> getType h1 = Ok (k, h1)) /\
    levels h1 = levels h /\
    removelast (frames h1) = removelast (frames h).
Proof.
  intros Hr Hl. pose proof (reachable_wf Token growslice h Hr) as Hwf.
  destruct (setToken_open _ h tok Hwf Hl) as (e & He & ->).
  eexists. split; [reflexivity|].
  destruct (top_written h {| token := tok; key := key e |} Hwf Hl)
    as (Hwf1 & Htop1 & Hbelow & _).
  set (h1 := mk_hashHelper _ _ _) in *.
  assert (Htop : top h = Some e).
  { unfold Contextual.top, Contextual.frames. rewrite last_lookup, <- He.
    f_equal. unfold Contextual.wf, len in Hwf. lia. }
  split; [|split; [|split; [reflexivity | exact Hbelow]]].
  - destruct (getToken_open h1 Hwf1 Hl) as (e1 & He1 & ->).
    rewrite Htop1 in He1. now injection He1 as <-.
  - intros k Hk.
    destruct (getType_open _ h Hwf Hl) as (e0 & He0 & Hg).
    rewrite Hg in Hk. injection Hk as <-.
    rewrite Htop in He0. injection He0 as <-.
    destruct (getType_open _ h1 Hwf1 Hl) as (e1 & He1 & ->).
    rewrite Htop1 in He1. now injection He1 as <-.
Qed.

(** X4: with a frame open, [setType] does not panic and leaves the token
    of the frame, the counter and the frames below as they were; only the
    key type of the top frame is new. *)
Theorem setType_keeps_token h k :
  reachable h -> 0 <= levels h ->
  exists h1, setType k h = Ok (tt, h1) /\
    getType h1 = Ok (k, h1) /\
    (forall tok, getToken h = Ok (tok, h) -> getToken h1 = Ok (tok, h1)) /\
    levels h1 = levels h /\
    removelast (frames h1) = removelast (frames h).
Proof.
  intros Hr Hl. pose proof (reachable_wf Token growslice h Hr) as Hwf.
  destruct (setType_open _ h k Hwf Hl) as (e & He & ->).
  eexists. split; [reflexivity|].
  destruct (top_written h {| token := token e; key := k |} Hwf Hl)
    as (Hwf1 & Htop1 & Hbelow & _).
  set (h1 := mk_hashHelper _ _ _) in *.
  assert (Htop : top h = Some e).
  { unfold Contextual.top, Contextual.frames. rewrite last_lookup, <- He.
    f_equal. unfold Contextual.wf, len in Hwf. lia. }
  split; [|split; [|split; [reflexivity | exact Hbelow]]].
  - destruct (getType_open _ h1 Hwf1 Hl) as (e1 & He1 & ->).
    rewrite Htop1 in He1. now injection He1 as <-.
  - intros tok Hk.
    destruct (getToken_open h Hwf Hl) as (e0 & He0 & Hg).
    rewrite Hg in Hk. injection Hk as <-.
    rewrite Htop in He0. injection He0 as <-.
    destruct (getToken_open h1 Hwf1 Hl) as (e1 & He1 & ->).
    rewrite Htop1 in He1. now injection He1 as <-.
Qed.

Lemma take_below {A} (a p : nat) (l1 l2 : list A) :
  (a <= p)%nat -> take p l1 = take p l2 -> take a l1 = take a l2.
Proof.
  intros Hle Heq. rewrite <- (Nat.min_l a p) by exact Hle.
  rewrite <- !take_take. now rewrite Heq.
Qed.

(** A scoped sequence read with [d] of its frames open takes these [d]
    frames off and leaves the ones below as they were. *)
Lemma scoped_from_exec cs : forall d h,
  wf h -> scoped_from Token d cs = true ->
  (d <= length (frames h))%nat ->
  exists h', exec_all cs h = Ok h' /\ wf h' /\
    length (frames h') = (length (frames h) - d)%nat /\
    take (length (frames h) - d) (frames h')
    = take (length (frames h) - d) (frames h).
Proof.
  induction cs as [|c cs IH]; intros d h Hwf Hs Hd.
  - destruct d; [|discriminate]. exists h. simpl.
    rewrite Nat.sub_0_r. auto.
  - assert (Hdepth := wf_depth h Hwf).
    destruct c as [|tok| |k| |]; simpl in Hs.
    + (* newHash *)
      destruct (exec NewHash h) as [h1|] eqn:He; [|discriminate].
      assert (Hwf1 := exec_wf Token growslice NewHash h h1 Hwf He).
      simpl in He. injection He as <-.
      set (h1 := mk_hashHelper _ _ _) in *.
      assert (Hf : frames h1 = frames h ++ [zero_hash Token]).
      { unfold Contextual.frames. subst h1. simpl. apply elems_append. }
      destruct (IH (S d) h1 Hwf1 Hs) as (h' & Hall & Hwf' & Hlen & Htake).
      { rewrite Hf, length_app. simpl. lia. }
      exists h'. split; [exact Hall|]. split; [exact Hwf'|].
      rewrite Hf, length_app in Hlen, Htake. simpl in Hlen, Htake.
      replace (length (frames h) + 1 - S d)%nat
        with (length (frames h) - d)%nat in Hlen, Htake by lia.
      split; [exact Hlen|]. rewrite Htake. apply take_app_le. lia.
    + (* setToken *)
      destruct d as [|d]; [discriminate|].
      assert (Hl : 0 <= levels h) by lia.
      destruct (setToken_open Token h tok Hwf Hl) as (e & _ & Hset).
      destruct (top_written h {| token := tok; key := key e |} Hwf Hl)
        as (Hwf1 & _ & Hbelow & Hsame).
      set (h1 := mk_hashHelper _ _ _) in *.
      destruct (IH (S d) h1 Hwf1 Hs) as (h' & Hall & Hwf' & Hlen & Htake);
        [lia|].
      exists h'. simpl. rewrite Hset. split; [exact Hall|].
      split; [exact Hwf'|]. rewrite Hsame in Hlen, Htake.
      split; [exact Hlen|]. rewrite Htake.
      rewrite !removelast_firstn_len in Hbelow.
      rewrite Hsame in Hbelow.
      apply (take_below _ (pred (length (frames h)))); [lia | exact Hbelow].
    + (* getToken *)
      destruct d as [|d]; [discriminate|].
      assert (Hl : 0 <= levels h) by lia.
      destruct (getToken_open h Hwf Hl) as (e & _ & Hget).
      destruct (IH (S d) h Hwf Hs Hd) as (h' & Hall & Hrest).
      exists h'. simpl. rewrite Hget. split; [exact Hall | exact Hrest].
    + (* setType *)
      destruct d as [|d]; [discriminate|].
      assert (Hl : 0 <= levels h) by lia.
      destruct (setType_open Token h k Hwf Hl) as (e & _ & Hset).
      destruct (top_written h {| token := token e; key := k |} Hwf Hl)
        as (Hwf1 & _ & Hbelow & Hsame).
      set (h1 := mk_hashHelper _ _ _) in *.
      destruct (IH (S d) h1 Hwf1 Hs) as (h' & Hall & Hwf' & Hlen & Htake);
        [lia|].
      exists h'. simpl. rewrite Hset. split; [exact Hall|].
      split; [exact Hwf'|]. rewrite Hsame in Hlen, Htake.
      split; [exact Hlen|]. rewrite Htake.
      rewrite !removelast_firstn_len in Hbelow.
      rewrite Hsame in Hbelow.
      apply (take_below _ (pred (length (frames h)))); [lia | exact Hbelow].
    + (* getType *)
      assert (Hget : exists k, getType h = Ok (k, h)).
      { destruct (Z.le_gt_cases 0 (levels h)) as [Hl|Hl].
        - destruct (getType_open Token h Hwf Hl) as (e & _ & ->). eauto.
        - exists HCOMPLEX. method.
          destruct (Z.ltb_spec (-1) (levels h)); [lia | reflexivity]. }
      destruct Hget as (k & Hget).
      destruct (IH d h Hwf Hs Hd) as (h' & Hall & Hrest).
      exists h'. simpl. rewrite Hget. split; [exact Hall | exact Hrest].
    + (* closeHash *)
      destruct d as [|d]; [discriminate|].
      assert (Hl : 0 <= levels h) by lia.
      destruct (closeHash_open Token h Hwf Hl) as (h1 & Hc & _ & Hf1).
      assert (Hwf1 : wf h1).
      { apply (exec_wf Token growslice CloseHash h); [exact Hwf|].
        simpl. now rewrite Hc. }
      destruct (IH d h1 Hwf1 Hs) as (h' & Hall & Hwf' & Hlen & Htake).
      { rewrite Hf1, length_take. lia. }
      exists h'. simpl. rewrite Hc. split; [exact Hall|].
      split; [exact Hwf'|].
      rewrite Hf1, length_take in Hlen, Htake.
      replace ((length (frames h) - 1) `min` length (frames h) - d)%nat
        with (length (frames h) - S d)%nat in Hlen, Htake by lia.
      split; [exact Hlen|]. rewrite Htake, take_take. f_equal. lia.
Qed.

(** X5: on a reachable state, the calls made while a hash literal is
    visited (a scoped sequence: frames opened and closed in pairs, tokens
    and types written and tokens read only inside them) run without a
    panic and leave the counter and every frame that was open before as
    they were; [getType] answers afterwards what it answered before. *)
Theorem scoped_calls_leave_enclosing_frames h cs :
  reachable h -> scoped Token cs = true ->
  exists h', exec_all cs h = Ok h' /\
    levels h' = levels h /\
    frames h' = frames h /\
    (forall k, getType h = Ok (k, h) -> getType h' = Ok (k, h')).
Proof.
  intros Hr Hs. pose proof (reachable_wf Token growslice h Hr) as Hwf.
  destruct (scoped_from_exec cs 0 h Hwf Hs) as (h' & Hall & Hwf' & Hlen & Ht);
    [lia|].
  rewrite Nat.sub_0_r in Hlen, Ht.
  assert (Hf : frames h' = frames h).
  { rewrite <- (firstn_all (frames h')), <- (firstn_all (frames h)).
    now rewrite Hlen, Ht at 1. }
  assert (Hl : levels h' = levels h).
  { rewrite (wf_depth h Hwf), (wf_depth h' Hwf'), Hlen. reflexivity. }
  exists h'. split; [exact Hall|]. split; [exact Hl|]. split; [exact Hf|].
  intros k Hk. destruct (Z.le_gt_cases 0 (levels h)) as [H0|H0].
  - destruct (getType_open Token h Hwf H0) as (e & He & Hg).
    rewrite Hg in Hk. injection Hk as <-.
    destruct (getType_open Token h' Hwf') as (e' & He' & ->); [lia|].
    unfold Contextual.top in *. rewrite Hf, He in He'.
    now injection He' as <-.
  - revert Hk. method.
    destruct (Z.ltb_spec (-1) (levels h)); [lia|].
    destruct (Z.ltb_spec (-1) (levels h')); [lia|].
    now intros [= <-].
Qed.

(** Closing as many frames as are open empties the tracker. *)
Lemma close_all n : forall h,
  wf h -> n = length (frames h) ->
  exists h', exec_all (replicate n CloseHash) h = Ok h' /\
    levels h' = -1 /\ frames h' = [].
Proof.
  induction n as [|n IH]; intros h Hwf Hn.
  - exists h. split; [reflexivity|]. rewrite (wf_depth h Hwf), <- Hn.
    split; [reflexivity|]. now apply length_zero_iff_nil.
  - assert (Hl : 0 <= levels h) by (rewrite (wf_depth h Hwf); lia).
    destruct (closeHash_open Token h Hwf Hl) as (h1 & Hc & _ & Hf1).
    assert (Hwf1 : wf h1).
    { apply (exec_wf Token growslice CloseHash h); [exact Hwf|].
      simpl. now rewrite Hc. }
    destruct (IH h1 Hwf1) as (h' & Hall & Hrest).
    { rewrite Hf1, length_take. lia. }
    exists h'. simpl. rewrite Hc. split; [exact Hall | exact Hrest].
Qed.

(** X6: on a reachable state, as many [closeHash] calls as frames are open
    run without a panic and leave the tracker empty ([levels == -1], no
    frame); one [closeHash] more panics on the slice expression. *)
Theorem closeHash_once_too_often h :
  reachable h ->
  (exists h', exec_all (replicate (length (frames h)) CloseHash) h = Ok h' /\
     levels h' = -1 /\ frames h' = []) /\
  exec_all (replicate (S (length (frames h))) CloseHash) h
  = Panic SliceBoundsOutOfRange.
Proof.
  intros Hr. pose proof (reachable_wf Token growslice h Hr) as Hwf.
  destruct (close_all (length (frames h)) h Hwf eq_refl)
    as (h' & Hall & Hl & Hf).
  split; [eauto|].
  rewrite replicate_S_end, exec_all_app, Hall. simpl. method.
  rewrite reslice_to_negative by lia. reflexivity.
Qed.

End Tracker.

Import Samples.

Lemma tracker_stale_reachable : reachable nat double_cap tracker_stale.
Proof.
  apply (reachable_exec_all nat double_cap stale_history newHashHelper);
    [constructor | reflexivity].
Qed.

Lemma reachable_counter_in_step_witness :
  reachable nat double_cap tracker_nested /\
  levels tracker_nested = len (hashs tracker_nested) - 1 /\
  -1 <= levels tracker_nested /\
  (levels tracker_nested = -1 <-> frames nat tracker_nested = []).
Proof.
  pose proof tracker_nested_reachable as Hr.
  split; [exact Hr|].
  exact (reachable_counter_in_step nat double_cap tracker_nested Hr).
Defined.

Lemma newHash_opens_zero_frame_witness :
  reachable nat double_cap tracker_stale /\
  exists h1, newHash nat double_cap tracker_stale = Ok (tt, h1) /\
    levels h1 = levels tracker_stale + 1 /\
    frames nat h1 = frames nat tracker_stale ++ [zero_hash nat] /\
    getType nat h1 = Ok (HUNKNOWN, h1) /\
    getToken nat h1 = Ok (None, h1).
Proof.
  pose proof tracker_stale_reachable as Hr.
  split; [exact Hr|].
  exact (newHash_opens_zero_frame nat double_cap tracker_stale Hr).
Defined.

Lemma setToken_then_getToken_witness :
  reachable nat double_cap tracker_nested /\
  0 <= levels tracker_nested /\
  exists h1, setToken nat (Some 4%nat) tracker_nested = Ok (tt, h1) /\
    getToken nat h1 = Ok (Some 4%nat, h1) /\
    (forall k, getType nat tracker_nested = Ok (k, tracker_nested) ->
               getType nat h1 = Ok (k, h1)) /\
    levels h1 = levels tracker_nested /\
    removelast (frames nat h1) = removelast (frames nat tracker_nested).
Proof.
  pose proof tracker_nested_reachable as Hr.
  assert (Hl : 0 <= levels tracker_nested) by (simpl; lia).
  split; [exact Hr|]. split; [exact Hl|].
  exact (setToken_then_getToken nat double_cap tracker_nested (Some 4%nat)
           Hr Hl).
Defined.

Lemma setType_keeps_token_witness :
  reachable nat double_cap tracker_nested /\
  0 <= levels tracker_nested /\
  exists h1, setType nat HSTRING tracker_nested = Ok (tt, h1) /\
    getType nat h1 = Ok (HSTRING, h1) /\
    (forall tok, getToken nat tracker_nested = Ok (tok, tracker_nested) ->
                 getToken nat h1 = Ok (tok, h1)) /\
    levels h1 = levels tracker_nested /\
    removelast (frames nat h1) = removelast (frames nat tracker_nested).
Proof.
  pose proof tracker_nested_reachable as Hr.
  assert (Hl : 0 <= levels tracker_nested) by (simpl; lia).
  split; [exact Hr|]. split; [exact Hl|].
  exact (setType_keeps_token nat double_cap tracker_nested HSTRING Hr Hl).
Defined.

Lemma scoped_calls_leave_enclosing_frames_witness :
  reachable nat double_cap tracker_nested /\
  scoped nat literal_calls = true /\
  exists h', exec_all nat double_cap literal_calls tracker_nested = Ok h' /\
    levels h' = levels tracker_nested /\
    frames nat h' = frames nat tracker_nested /\
    (forall k, getType nat tracker_nested = Ok (k, tracker_nested) ->
               getType nat h' = Ok (k, h')).
Proof.
  pose proof tracker_nested_reachable as Hr.
  split; [exact Hr|]. split; [reflexivity|].
  exact (scoped_calls_leave_enclosing_frames nat double_cap tracker_nested
           literal_calls Hr eq_refl).
Defined.

Lemma closeHash_once_too_often_witness :
  reachable nat double_cap tracker_nested /\
  (exists h',
     exec_all nat double_cap
       (replicate (length (frames nat tracker_nested)) CloseHash)
       tracker_nested = Ok h' /\
     levels h' = -1 /\ frames nat h' = []) /\
  exec_all nat double_cap
    (replicate (S (length (frames nat tracker_nested))) CloseHash)
    tracker_nested
  = Panic SliceBoundsOutOfRange.
Proof.
  pose proof tracker_nested_reachable as Hr.
  split; [exact Hr|].
  exact (closeHash_once_too_often nat double_cap tracker_nested Hr).
Defined.

(** The samples run: the literal's calls bring [tracker_nested] back, with
    the closed frames left in the backing array. *)
Example stale_history_runs :
  exec_all nat double_cap stale_history newHashHelper = Ok tracker_stale.
Proof. reflexivity. Qed.

Example literal_calls_run :
  frames nat
    (match exec_all nat double_cap literal_calls tracker_nested with
     | Ok h' => h'
     | Panic _ => newHashHelper
     end)
  = frames nat tracker_nested.
Proof. reflexivity. Qed.

End TrackerProperties.

(* --------------------------------------------------------------------- *)
(** ** Attributes: what a declaration keeps, and who marks it             *)
(* --------------------------------------------------------------------- *)

Module AttributeProperties.
Import Go Identification IdentificationFacts.

Section Attribute.
Variable Token Data : Type.

Local Abbreviation attribute := (Identification.attribute Token Data).
Local Abbreviation store := (gmap addr (Identification.attribute Token Data)).
Local Abbreviation call := (Identification.call Token Data).
Local Abbreviation NewAttribute := (Identification.NewAttribute Token Data).
Local Abbreviation markVisited := (Identification.markVisited Token Data).
Local Abbreviation wasVisited := (Identification.wasVisited Token Data).
Local Abbreviation getToken := (Identification.getToken Token Data).
Local Abbreviation GetType := (Identification.GetType Token Data).
Local Abbreviation GetData := (Identification.GetData Token Data).
Local Abbreviation exec := (Identification.exec Token Data).
Local Abbreviation exec_all := (Identification.exec_all Token Data).
Local Abbreviation marks := (Identification.marks Token Data).

Implicit Types (st : store) (a : pointer) (l : addr) (x : attribute)
  (c : call).

(** One call: the attribute at [l] keeps its kind, token and data, and its
    flag is set exactly if the call marks [l]. *)
Lemma exec_tracks c st st' l x :
  exec c st = Ok st' -> st !! l = Some x ->
  exists x', st' !! l = Some x' /\
    expression x' = expression x /\ token x' = token x /\
    data x' = data x /\
    visited x' = visited x || marks (Some l) c.
Proof.
  intros He Hl. destruct (is_mark Token Data c) eqn:Hm.
  - destruct c as [| |b| | |]; try discriminate. simpl in He.
    destruct (markVisited b st) as [[[] st1]|] eqn:Hk; [|discriminate].
    injection He as <-.
    apply markVisited_Ok in Hk as (l0 & y & -> & Hy & ->). simpl.
    destruct (decide (l0 = l)) as [->|Hne].
    + rewrite lookup_insert_eq. rewrite Hl in Hy. injection Hy as <-.
      eexists. split; [reflexivity|]. simpl.
      rewrite bool_decide_eq_true_2 by reflexivity.
      now rewrite orb_true_r.
    + rewrite lookup_insert_ne by exact Hne.
      exists x. split; [exact Hl|].
      rewrite bool_decide_eq_false_2 by congruence.
      now rewrite orb_false_r.
  - exists x. split; [exact (exec_other_keeps _ _ c st st' l x Hm He Hl)|].
    assert (Hn : marks (Some l) c = false) by (destruct c; auto; discriminate).
    rewrite Hn, orb_false_r. auto.
Qed.

Lemma exec_all_tracks cs : forall st st' l x,
  exec_all cs st = Ok st' -> st !! l = Some x ->
  exists x', st' !! l = Some x' /\
    expression x' = expression x /\ token x' = token x /\
    data x' = data x /\
    visited x' = visited x || existsb (marks (Some l)) cs.
Proof.
  induction cs as [|c cs IH]; intros st st' l x; simpl.
  - intros [= <-] Hl. exists x. rewrite orb_false_r. auto.
  - destruct (exec c st) as [st1|] eqn:He; [|discriminate].
    intros Hall Hl.
    destruct (exec_tracks c st st1 l x He Hl)
      as (x1 & Hl1 & He1 & Ht1 & Hd1 & Hv1).
    destruct (IH st1 st' l x1 Hall Hl1) as (x' & Hl' & He' & Ht' & Hd' & Hv').
    exists x'. split; [exact Hl'|].
    rewrite He', Ht', Hd', Hv', Hv1, orb_assoc. auto.
Qed.

(** X7: the kind, the token and the data an attribute was created with
    are what [GetType], [getToken] and [GetData] return after any further
    calls, marks and later declarations included. *)
Theorem attribute_keeps_declaration e t d st a st1 cs st2 :
  NewAttribute e t d st = Ok (a, st1) ->
  exec_all cs st1 = Ok st2 ->
  GetType a st2 = Ok (e, st2) /\
  getToken a st2 = Ok (t, st2) /\
  GetData a st2 = Ok (d, st2).
Proof.
  intros [= <- <-] Hall.
  destruct (exec_all_tracks cs _ st2 (fresh (dom st)) _ Hall
              (lookup_insert_eq _ _ _))
    as (x' & Hl' & He' & Ht' & Hd' & _).
  simpl in He', Ht', Hd'.
  unfold Identification.GetType, Identification.getToken,
    Identification.GetData, bind, ret, Identification.load.
  rewrite Hl'. now rewrite He', Ht', Hd'.
Qed.

(** X8: [markVisited] on one attribute leaves every other attribute as it
    was: for a pointer [b] other than [a], [wasVisited], [GetType],
    [getToken] and [GetData] on [b] return what they returned before. *)
Theorem markVisited_marks_one a b st st1 :
  a <> b -> markVisited a st = Ok (tt, st1) ->
  (forall v, wasVisited b st = Ok (v, st) -> wasVisited b st1 = Ok (v, st1)) /\
  (forall e, GetType b st = Ok (e, st) -> GetType b st1 = Ok (e, st1)) /\
  (forall t, getToken b st = Ok (t, st) -> getToken b st1 = Ok (t, st1)) /\
  (forall d, GetData b st = Ok (d, st) -> GetData b st1 = Ok (d, st1)).
Proof.
  intros Hab Hk. apply markVisited_Ok in Hk as (l & x & -> & Hl & ->).
  unfold Identification.wasVisited, Identification.GetType,
    Identification.getToken, Identification.GetData, bind, ret,
    Identification.load.
  destruct b as [l'|]; [|repeat split; intros; discriminate].
  rewrite lookup_insert_ne by congruence.
  destruct (st !! l') as [y|]; [|repeat split; intros; discriminate].
  repeat split; intros ? [= <-]; reflexivity.
Qed.

(** X9: after any calls, [wasVisited] on an attribute returns true exactly
    if one of the calls made since it was created was [markVisited] on it;
    in particular an attribute that is never marked stays unvisited,
    whatever is done to others. *)
Theorem wasVisited_iff_marked e t d st a st1 cs st2 :
  NewAttribute e t d st = Ok (a, st1) ->
  exec_all cs st1 = Ok st2 ->
  wasVisited a st2 = Ok (existsb (marks a) cs, st2).
Proof.
  intros [= <- <-] Hall.
  destruct (exec_all_tracks cs _ st2 (fresh (dom st)) _ Hall
              (lookup_insert_eq _ _ _))
    as (x' & Hl' & _ & _ & _ & Hv').
  simpl in Hv'. rewrite (wasVisited_Ok _ _ _ st2 x' Hl'). now rewrite Hv'.
Qed.

End Attribute.

Import Samples.

Lemma attribute_keeps_declaration_witness :
  NewAttribute nat unit IDENTIFIER (Some 3%nat) tt ∅
    = Ok (Some 0%nat, one_identifier) /\
  exec_all nat unit later_calls one_identifier = Ok two_marked /\
  GetType nat unit (Some 0%nat) two_marked = Ok (IDENTIFIER, two_marked) /\
  getToken nat unit (Some 0%nat) two_marked = Ok (Some 3%nat, two_marked) /\
  GetData nat unit (Some 0%nat) two_marked = Ok (tt, two_marked).
Proof.
  assert (Hnew : NewAttribute nat unit IDENTIFIER (Some 3%nat) tt ∅
                 = Ok (Some 0%nat, one_identifier))
    by (vm_compute; reflexivity).
  assert (Hall : exec_all nat unit later_calls one_identifier = Ok two_marked)
    by (vm_compute; reflexivity).
  split; [exact Hnew|]. split; [exact Hall|].
  exact (attribute_keeps_declaration nat unit IDENTIFIER (Some 3%nat) tt ∅
           (Some 0%nat) one_identifier later_calls two_marked Hnew Hall).
Defined.

Lemma markVisited_marks_one_witness :
  Some 1%nat <> Some 0%nat /\
  markVisited nat unit (Some 1%nat)
    (<[ 1%nat := mk_attribute nat unit FUNCTION None false tt ]>
       one_identifier)
  = Ok (tt, function_marked) /\
  wasVisited nat unit (Some 0%nat) function_marked
  = Ok (false, function_marked).
Proof.
  assert (Hne : Some 1%nat <> Some 0%nat) by discriminate.
  assert (Hmark : markVisited nat unit (Some 1%nat)
            (<[ 1%nat := mk_attribute nat unit FUNCTION None false tt ]>
               one_identifier)
          = Ok (tt, function_marked)) by (vm_compute; reflexivity).
  split; [exact Hne|]. split; [exact Hmark|].
  apply (proj1 (markVisited_marks_one nat unit (Some 1%nat) (Some 0%nat)
                  _ function_marked Hne Hmark)).
  vm_compute. reflexivity.
Defined.

Lemma wasVisited_iff_marked_witness :
  NewAttribute nat unit IDENTIFIER (Some 3%nat) tt ∅
    = Ok (Some 0%nat, one_identifier) /\
  exec_all nat unit other_calls one_identifier = Ok function_marked /\
  existsb (marks nat unit (Some 0%nat)) other_calls = false /\
  wasVisited nat unit (Some 0%nat) function_marked
  = Ok (false, function_marked).
Proof.
  assert (Hnew : NewAttribute nat unit IDENTIFIER (Some 3%nat) tt ∅
                 = Ok (Some 0%nat, one_identifier))
    by (vm_compute; reflexivity).
  assert (Hall : exec_all nat unit other_calls one_identifier
                 = Ok function_marked)
    by (vm_compute; reflexivity).
  split; [exact Hnew|]. split; [exact Hall|]. split; [reflexivity|].
  exact (wasVisited_iff_marked nat unit IDENTIFIER (Some 3%nat) tt ∅
           (Some 0%nat) one_identifier other_calls function_marked
           Hnew Hall).
Defined.

End AttributeProperties.

(* --------------------------------------------------------------------- *)
(** ** Addition trees: the visits, for any visitor and any context        *)
(* --------------------------------------------------------------------- *)

Module AdditionTreeProperties.
Import Go Codegenerator CodegeneratorFacts.

Section Visitor.
Variable MulExpr Factor : Type.
Variable visitor : Type.
Variable Visit : option (tree MulExpr Factor) -> M visitor unit.

Local Abbreviation AdditionTreeContext :=
  (Codegenerator.AdditionTreeContext MulExpr Factor).
Local Abbreviation chain := (Codegenerator.chain MulExpr Factor).
Local Abbreviation chain_order := (Codegenerator.chain_order MulExpr Factor).
Local Abbreviation additionLoop :=
  (Codegenerator.additionLoop MulExpr Factor visitor Visit).
Local Abbreviation VisitAdditionTree :=
  (Codegenerator.VisitAdditionTree MulExpr Factor visitor Visit).
Local Abbreviation visit_all :=
  (Codegenerator.visit_all MulExpr Factor visitor Visit).
Local Abbreviation visit_nodes :=
  (Codegenerator.visit_nodes MulExpr Factor visitor Visit).
Local Abbreviation schedule := (Codegenerator.schedule MulExpr Factor).
Local Abbreviation operands :=
  (Codegenerator.AllMultiplicationExpression MulExpr Factor).
Local Abbreviation factors :=
  (Codegenerator.AllAdditionFactor MulExpr Factor).
Local Abbreviation operand_at :=
  (Codegenerator.MultiplicationExpression MulExpr Factor).
Local Abbreviation factor_at :=
  (Codegenerator.AdditionFactor MulExpr Factor).

Implicit Types (ctx : AdditionTreeContext) (a : MulExpr)
  (rest : list (Factor * MulExpr)) (v : visitor).

Local Abbreviation is_factor := (Codegenerator.is_factor MulExpr Factor).

Lemma visit_all_app (ts1 ts2 : list (tree MulExpr Factor)) v :
  visit_all (ts1 ++ ts2) v
  = match visit_all ts1 v with
    | Ok (_, v1) => visit_all ts2 v1
    | Panic p => Panic p
    end.
Proof.
  revert v. induction ts1 as [|t ts1 IH]; intros v; simpl; [reflexivity|].
  unfold bind. destruct (Visit (Some t) v) as [[[] v1]|]; [apply IH|].
  reflexivity.
Qed.

(** X10: for any visitor, [VisitAdditionTree] on the chain
    [a0 op1 a1 ... opk ak] visits [a0, a1, op1, ..., ak, opk] in this
    order and nothing else: [2k + 1] visits, [k] of them of factors. *)
Theorem VisitAdditionTree_visits_in_order a0 rest v :
  VisitAdditionTree (chain a0 rest) v = visit_all (chain_order a0 rest) v /\
  length (chain_order a0 rest) = (2 * length rest + 1)%nat /\
  length (List.filter is_factor (chain_order a0 rest)) = length rest.
Proof.
  split; [apply VisitAdditionTree_order|].
  unfold Codegenerator.chain_order. simpl.
  split; induction rest as [|[op a] rest IH]; simpl; lia.
Qed.

(** X11: a panic of [Visit] is not recovered: when the visits before a
    node of the chain go through and the visit of that node panics,
    [VisitAdditionTree] panics with the same value (and visits no node
    after it). *)
Theorem VisitAdditionTree_panics_with_visit a0 rest v before t later v1 p :
  chain_order a0 rest = before ++ t :: later ->
  visit_all before v = Ok (tt, v1) ->
  Visit (Some t) v1 = Panic p ->
  VisitAdditionTree (chain a0 rest) v = Panic p.
Proof.
  intros Hsplit Hbefore Ht.
  rewrite VisitAdditionTree_order, Hsplit, visit_all_app, Hbefore.
  simpl. unfold bind. now rewrite Ht.
Qed.

(** The loop entered at [i] runs for the operands from [i] on. *)
Lemma additionLoop_schedule ctx : forall k i v,
  k = (length (operands ctx) - i)%nat ->
  additionLoop ctx (Z.of_nat (length (operands ctx))) (Z.of_nat i) v
  = visit_nodes
      (flat_map
         (fun j : nat => [operand_at ctx (Z.of_nat j);
                          factor_at ctx (Z.of_nat j - 1)])
         (seq i k)) v.
Proof.
  induction k as [|k IH]; intros i v Hk; simp additionLoop;
    destruct (Z_lt_dec _ _) as [Hlt|Hge]; simpl; try lia; try reflexivity.
  unfold bind.
  destruct (Visit (operand_at ctx (Z.of_nat i)) v) as [[[] v1]|];
    [|reflexivity].
  destruct (Visit (factor_at ctx (Z.of_nat i - 1)) v1) as [[[] v2]|];
    [|reflexivity].
  replace (Z.of_nat i + 1) with (Z.of_nat (S i)) by lia.
  apply IH. lia.
Qed.

Lemma visits_schedule ctx v :
  VisitAdditionTree ctx v = visit_nodes (schedule ctx) v.
Proof.
  unfold Codegenerator.VisitAdditionTree, Codegenerator.schedule.
  cbn [Codegenerator.visit_nodes]. unfold bind.
  destruct (Visit (operand_at ctx 0) v) as [[[] v1]|]; [|reflexivity].
  exact (additionLoop_schedule ctx _ 1 v1 eq_refl).
Qed.

(** X12: on any context, well formed or not, [VisitAdditionTree] calls
    [Visit] on operand 0 and then, for [i] from 1 to [n - 1], on operand
    [i] and on factor [i - 1], each as its accessor returns it (nil where
    there is none), and stops at the first call that panics: with [n]
    operands that is [2 (n - 1) + 1] calls; without any operand it is the
    one call [Visit(nil)]. *)
Theorem VisitAdditionTree_schedule ctx v :
  VisitAdditionTree ctx v = visit_nodes (schedule ctx) v /\
  length (schedule ctx) = (2 * (length (operands ctx) - 1) + 1)%nat /\
  (operands ctx = [] -> schedule ctx = [None]).
Proof.
  split; [apply visits_schedule | split].
  - assert (Hlen : forall k i,
              length (flat_map
                        (fun j : nat => [operand_at ctx (Z.of_nat j);
                                         factor_at ctx (Z.of_nat j - 1)])
                        (seq i k)) = (2 * k)%nat).
    { induction k as [|k IH]; intros i; simpl; [reflexivity|].
      rewrite IH. lia. }
    unfold Codegenerator.schedule. cbn [length]. rewrite Hlen. lia.
  - intros Hnone. unfold Codegenerator.schedule,
      Codegenerator.MultiplicationExpression. now rewrite Hnone.
Qed.

Lemma schedule_agrees ctx1 ctx2 :
  operands ctx1 = operands ctx2 ->
  take (length (operands ctx1) - 1) (factors ctx1)
  = take (length (operands ctx1) - 1) (factors ctx2) ->
  schedule ctx1 = schedule ctx2.
Proof.
  intros Hm Hf. unfold Codegenerator.schedule.
  unfold Codegenerator.MultiplicationExpression at 1 3. rewrite <- Hm.
  f_equal.
  assert (Hgen : forall k i, (1 <= i)%nat ->
            (i + k <= S (length (operands ctx1) - 1))%nat ->
            flat_map (fun j : nat => [operand_at ctx1 (Z.of_nat j);
                                      factor_at ctx1 (Z.of_nat j - 1)])
              (seq i k)
            = flat_map (fun j : nat => [operand_at ctx2 (Z.of_nat j);
                                        factor_at ctx2 (Z.of_nat j - 1)])
                (seq i k)).
  { induction k as [|k IH]; intros i Hi Hik; simpl; [reflexivity|].
    rewrite IH by lia. f_equal; [|f_equal].
    - unfold Codegenerator.MultiplicationExpression. now rewrite Hm.
    - unfold Codegenerator.AdditionFactor.
      destruct (Z.ltb_spec (Z.of_nat i - 1) 0); [reflexivity|].
      f_equal.
      rewrite <- (lookup_take_lt (factors ctx1)
                    (length (operands ctx1) - 1)
                    (Z.to_nat (Z.of_nat i - 1))) by lia.
      rewrite <- (lookup_take_lt (factors ctx2)
                    (length (operands ctx1) - 1)
                    (Z.to_nat (Z.of_nat i - 1))) by lia.
      now rewrite Hf. }
  apply Hgen; lia.
Qed.

(** X13: what [VisitAdditionTree] does depends on the operands of the
    context and on its first [n - 1] factors only: two contexts that agree
    on these are visited alike, however their children are arranged and
    whatever factors follow. *)
Theorem VisitAdditionTree_ignores_the_rest ctx1 ctx2 v :
  operands ctx1 = operands ctx2 ->
  take (length (operands ctx1) - 1) (factors ctx1)
  = take (length (operands ctx1) - 1) (factors ctx2) ->
  VisitAdditionTree ctx1 v = VisitAdditionTree ctx2 v.
Proof.
  intros Hm Hf.
  now rewrite !visits_schedule, (schedule_agrees ctx1 ctx2 Hm Hf).
Qed.

End Visitor.

Import Samples.

Lemma VisitAdditionTree_panics_with_visit_witness :
  chain_order Z bool 1 [(true, 0); (true, 3)]
  = [MulNode 1] ++ MulNode 0 :: [FactorNode true; MulNode 3; FactorNode true]
  /\
  visit_all Z bool (list instr) picky_Visit [MulNode 1] [] = Ok (tt, [Push 1])
  /\
  picky_Visit (Some (MulNode 0)) [Push 1] = Panic NilDereference /\
  VisitAdditionTree Z bool (list instr) picky_Visit
    (chain Z bool 1 [(true, 0); (true, 3)]) []
  = Panic NilDereference.
Proof.
  assert (Hs : chain_order Z bool 1 [(true, 0); (true, 3)]
               = [MulNode 1] ++ MulNode 0 ::
                 [FactorNode true; MulNode 3; FactorNode true])
    by reflexivity.
  assert (Hb : visit_all Z bool (list instr) picky_Visit [MulNode 1] []
               = Ok (tt, [Push 1])) by reflexivity.
  assert (Ht : picky_Visit (Some (MulNode 0)) [Push 1]
               = Panic NilDereference) by reflexivity.
  split; [exact Hs|]. split; [exact Hb|]. split; [exact Ht|].
  exact (VisitAdditionTree_panics_with_visit Z bool (list instr) picky_Visit
           1 [(true, 0); (true, 3)] [] [MulNode 1] (MulNode 0)
           [FactorNode true; MulNode 3; FactorNode true] [Push 1]
           NilDereference Hs Hb Ht).
Defined.

Lemma VisitAdditionTree_schedule_witness :
  AllMultiplicationExpression Z bool (mk_AdditionTreeContext Z bool []) = []
  /\
  schedule Z bool (mk_AdditionTreeContext Z bool []) = [None] /\
  VisitAdditionTree Z bool (list instr) literal_Visit
    (mk_AdditionTreeContext Z bool []) []
  = visit_nodes Z bool (list instr) literal_Visit [None] [].
Proof.
  assert (Hnone : AllMultiplicationExpression Z bool
                    (mk_AdditionTreeContext Z bool []) = []) by reflexivity.
  destruct (VisitAdditionTree_schedule Z bool (list instr) literal_Visit
              (mk_AdditionTreeContext Z bool []) []) as (Hv & _ & He).
  split; [exact Hnone|]. split; [exact (He Hnone) | exact Hv].
Defined.

Lemma VisitAdditionTree_ignores_the_rest_witness :
  AllMultiplicationExpression Z bool shuffled_tree
  = AllMultiplicationExpression Z bool (chain Z bool 1 [(true, 2)]) /\
  take (length (AllMultiplicationExpression Z bool shuffled_tree) - 1)
    (AllAdditionFactor Z bool shuffled_tree)
  = take (length (AllMultiplicationExpression Z bool shuffled_tree) - 1)
      (AllAdditionFactor Z bool (chain Z bool 1 [(true, 2)])) /\
  VisitAdditionTree Z bool (list instr) literal_Visit shuffled_tree []
  = VisitAdditionTree Z bool (list instr) literal_Visit
      (chain Z bool 1 [(true, 2)]) [].
Proof.
  assert (Hm : AllMultiplicationExpression Z bool shuffled_tree
               = AllMultiplicationExpression Z bool
                   (chain Z bool 1 [(true, 2)])) by reflexivity.
  assert (Hf : take (length (AllMultiplicationExpression Z bool
                               shuffled_tree) - 1)
                 (AllAdditionFactor Z bool shuffled_tree)
               = take (length (AllMultiplicationExpression Z bool
                                 shuffled_tree) - 1)
                   (AllAdditionFactor Z bool (chain Z bool 1 [(true, 2)])))
    by reflexivity.
  split; [exact Hm|]. split; [exact Hf|].
  exact (VisitAdditionTree_ignores_the_rest Z bool (list instr) literal_Visit
           shuffled_tree (chain Z bool 1 [(true, 2)]) [] Hm Hf).
Defined.

(** The shuffled tree with its surplus factor is visited like [1 + 2]. *)
Example shuffled_tree_runs :
  VisitAdditionTree Z bool (list instr) literal_Visit shuffled_tree []
  = Ok (tt, [Push 1; Push 2; Add]).
Proof. vm_compute. reflexivity. Qed.

End AdditionTreeProperties.

(* --------------------------------------------------------------------- *)
(** ** The handlers: phases, the instruction file, the responses          *)
(* --------------------------------------------------------------------- *)

Module HandlerProperties.
Import Go Handler HandlerFacts.

Local Open Scope string_scope.

Section Handlers.
Variable InstructionsCode VM : string.
Variable TrimSpace : string -> string.
Variable Tree Graph : Type.

Local Abbreviation world := (Handler.world Tree Graph).
Local Abbreviation parsing :=
  (Handler.parsing InstructionsCode Tree Graph).
Local Abbreviation parseErrors :=
  (Handler.parseErrors InstructionsCode Tree Graph).
Local Abbreviation parseLines :=
  (Handler.parseLines InstructionsCode Tree Graph).
Local Abbreviation parseTree :=
  (Handler.parseTree InstructionsCode Tree Graph).
Local Abbreviation parsing_log :=
  (Handler.parsing_log InstructionsCode Tree Graph).
Local Abbreviation syntax_clean := (Handler.syntax_clean Tree Graph).
Local Abbreviation context_clean := (Handler.context_clean Tree Graph).
Local Abbreviation pipeline := (Handler.pipeline InstructionsCode Tree Graph).
Local Abbreviation run :=
  (Handler.run InstructionsCode VM TrimSpace Tree Graph).
Local Abbreviation Compile := (Handler.Compile InstructionsCode Tree Graph).
Local Abbreviation Run :=
  (Handler.Run InstructionsCode VM TrimSpace Tree Graph).

Ltac handlers :=
  unfold Handler.Compile, Handler.Run, Handler.pipeline in *;
  unfold Handler.parseErrors, Handler.parseLines, Handler.parseTree,
    Handler.parsing_log, Handler.parsing, Handler.run, Handler.save,
    Handler.syntax_clean, Handler.context_clean,
    andthen, call, pure in *; simpl in *.

(** X14: the error list [parsing] returns is never the nil slice, whatever
    the listeners hold and whether or not the file could be written. *)
Theorem parsing_errors_never_nil (w : world) (program : string) :
  is_nil (parseErrors w program) = false.
Proof.
  handlers.
  destruct (is_nil (Errors (snd (Program _ _ w program)))) eqn:Hs; simpl;
    [|exact Hs].
  destruct (is_nil (Errors (contextualVisit _ _ w _))) eqn:Hx; simpl;
    [|exact Hx].
  destruct (WriteFile _ _ w _ _); reflexivity.
Qed.

Lemma write_logged_iff (w : world) (program name data : string) :
  In (EvWriteFile name data) (parsing_log w program) <->
  syntax_clean w program = true /\ context_clean w program = true /\
  name = InstructionsCode /\
  data = Code _ _ w (fst (Program _ _ w program)).
Proof.
  handlers.
  destruct (is_nil (Errors (snd (Program _ _ w program)))) eqn:Hs; simpl.
  2: { split; [intros [H|[H|[]]]; discriminate | intros (? & _); discriminate]. }
  destruct (is_nil (Errors (contextualVisit _ _ w _))) eqn:Hx; simpl.
  2: { split; [intros [H|[H|[H|[]]]]; discriminate|].
       intros (_ & ? & _); discriminate. }
  split.
  - intros [H|[H|[H|[H|[H|Hin]]]]]; try discriminate.
    + injection H as <- <-. auto.
    + destruct (WriteFile _ _ w _ _); simpl in Hin; destruct Hin.
  - intros (_ & _ & -> & ->). do 4 right. left. reflexivity.
Qed.

(** X15: [parsing] writes a file exactly when neither the parser nor the
    contextual analysis reported anything, and what it writes then is the
    generated code of the tree, to the instructions file. *)
Theorem parsing_writes_iff_clean (w : world) (program name data : string) :
  In (EvWriteFile name data) (parsing_log w program) <->
  syntax_clean w program = true /\ context_clean w program = true /\
  name = InstructionsCode /\
  data = Code _ _ w (fst (Program _ _ w program)).
Proof. apply write_logged_iff. Qed.

(** X16: the errors and lines [parsing] returns are those of the first
    phase that reported something, as its listener holds them: with
    syntax errors the contextual analysis is not run; with contextual
    errors nothing is generated or written. *)
Theorem parsing_reports_first_failing_phase (w : world) (program : string) :
  (syntax_clean w program = false ->
     parseErrors w program = Errors (snd (Program _ _ w program)) /\
     parseLines w program = Lines (snd (Program _ _ w program)) /\
     parsing_log w program
     = [EvParse program; EvGraph (fst (Program _ _ w program))]) /\
  (syntax_clean w program = true -> context_clean w program = false ->
     parseErrors w program
     = Errors (contextualVisit _ _ w (fst (Program _ _ w program))) /\
     parseLines w program
     = Lines (contextualVisit _ _ w (fst (Program _ _ w program))) /\
     parsing_log w program
     = [EvParse program; EvGraph (fst (Program _ _ w program));
        EvContextual (fst (Program _ _ w program))]).
Proof.
  handlers. split.
  - intros ->. simpl. auto.
  - intros -> ->. simpl. auto.
Qed.

(** X17: the steps of [parsing] are always an initial part of the
    pipeline parse, graph, contextual analysis, code generation, write, in
    this order and each at most once; the parse and the graph always run,
    and the graph of the tree is returned in every outcome. *)
Theorem parsing_follows_pipeline (w : world) (program : string) :
  (exists rest, pipeline w program = (parsing_log w program ++ rest)%list) /\
  (exists rest,
     parsing_log w program
     = (EvParse program :: EvGraph (fst (Program _ _ w program)) :: rest)) /\
  parseTree w program = graphVisit _ _ w (fst (Program _ _ w program)).
Proof.
  handlers.
  destruct (is_nil (Errors (snd (Program _ _ w program)))); simpl.
  2: { split; [eexists; reflexivity|]. split; [eexists|]; reflexivity. }
  destruct (is_nil (Errors (contextualVisit _ _ w _))); simpl.
  2: { split; [eexists; reflexivity|]. split; [eexists|]; reflexivity. }
  destruct (WriteFile _ _ w _ _); simpl;
    (split; [exists []; reflexivity|]; split; [eexists|]; reflexivity).
Qed.

(** X18: when the machine exits with an error, what it has printed is
    dropped: two worlds that agree on the file check and on the error of
    the machine get the same result from [run], whatever each machine
    printed. *)
Theorem run_drops_output_on_error (w1 w2 : world) (e : string) :
  Stat _ _ w1 InstructionsCode = Stat _ _ w2 InstructionsCode ->
  snd (Output _ _ w1 VM [InstructionsCode]) = Some e ->
  snd (Output _ _ w2 VM [InstructionsCode]) = Some e ->
  run w1 = run w2.
Proof.
  intros Hstat H1 H2. handlers. rewrite <- Hstat.
  destruct (Stat _ _ w1 InstructionsCode); simpl; [reflexivity|].
  now rewrite H1, H2.
Qed.

Lemma errors_not_nil (w : world) (program : string) :
  is_nil (parseErrors w program) = false.
Proof.
  handlers.
  destruct (is_nil (Errors (snd (Program _ _ w program)))) eqn:Hs; simpl;
    [|exact Hs].
  destruct (is_nil (Errors (contextualVisit _ _ w _))) eqn:Hx; simpl;
    [|exact Hx].
  destruct (WriteFile _ _ w _ _); reflexivity.
Qed.

(** X19: [Compile] answers 400 with the message [Bad request] when the
    request cannot be bound, and then nothing is parsed or written;
    otherwise it answers 200 with the three results of [parsing], also
    when the program has errors, and its error list is never nil.  So a
    compile request writes the instructions file only if it was bound and
    its program passed both analyses.  [Run] always answers 200 with the
    string of [run]. *)
Theorem handlers_answer (w : world) :
  (forall msg,
     Compile w (BindError msg)
     = (AbortWithStatusJSON 400 "Bad request", [])) /\
  (forall program,
     fst (Compile w (Bound program))
     = CompileJSON 200 (parseErrors w program) (parseLines w program)
         (parseTree w program) /\
     is_nil (parseErrors w program) = false /\
     snd (Compile w (Bound program)) = parsing_log w program) /\
  (forall c name data,
     In (EvWriteFile name data) (snd (Compile w c)) ->
     exists program, c = Bound program /\
       syntax_clean w program = true /\ context_clean w program = true) /\
  Run w = (RunJSON 200 (fst (run w)), snd (run w)).
Proof.
  assert (Hlog : forall program,
            snd (Compile w (Bound program)) = parsing_log w program).
  { intros program.
    unfold Handler.Compile, Handler.parsing_log, andthen, pure. simpl.
    now rewrite app_nil_r. }
  split; [reflexivity|]. split; [|split].
  - intros program. split; [reflexivity|].
    split; [apply errors_not_nil | apply Hlog].
  - intros [msg|program] name data Hin; [destruct Hin|].
    rewrite Hlog in Hin. apply write_logged_iff in Hin as (Hs & Hc & _).
    eauto.
  - unfold Handler.Run, andthen, pure. simpl. now rewrite app_nil_r.
Qed.

End Handlers.

Import Samples.

Lemma parsing_writes_iff_clean_witness :
  syntax_clean string unit clean_world "1 + 2" = true /\
  context_clean string unit clean_world "1 + 2" = true /\
  In (EvWriteFile instructions_file "code of 1 + 2")
    (parsing_log instructions_file string unit clean_world "1 + 2").
Proof.
  assert (Hs : syntax_clean string unit clean_world "1 + 2" = true)
    by reflexivity.
  assert (Hc : context_clean string unit clean_world "1 + 2" = true)
    by reflexivity.
  split; [exact Hs|]. split; [exact Hc|].
  apply (proj2 (parsing_writes_iff_clean instructions_file string unit
                  clean_world "1 + 2" instructions_file "code of 1 + 2")).
  split; [exact Hs|]. split; [exact Hc|]. split; reflexivity.
Defined.

Lemma parsing_reports_first_failing_phase_witness :
  (syntax_clean string unit broken_world "1 +" = false /\
   parseErrors instructions_file string unit broken_world "1 +"
   = Slice ["mismatched input"] [] /\
   parseLines instructions_file string unit broken_world "1 +"
   = Slice [2%Z] [] /\
   parsing_log instructions_file string unit broken_world "1 +"
   = [EvParse "1 +"; EvGraph "1 +"]) /\
  (syntax_clean string unit undeclared_world "x + 1" = true /\
   context_clean string unit undeclared_world "x + 1" = false /\
   parseErrors instructions_file string unit undeclared_world "x + 1"
   = Slice ["Undeclared x"] [] /\
   parseLines instructions_file string unit undeclared_world "x + 1"
   = Slice [1%Z] [] /\
   parsing_log instructions_file string unit undeclared_world "x + 1"
   = [EvParse "x + 1"; EvGraph "x + 1"; EvContextual "x + 1"]).
Proof.
  split.
  - assert (Hs : syntax_clean string unit broken_world "1 +" = false)
      by reflexivity.
    split; [exact Hs|].
    exact (proj1 (parsing_reports_first_failing_phase instructions_file
                    string unit broken_world "1 +") Hs).
  - assert (Hs : syntax_clean string unit undeclared_world "x + 1" = true)
      by reflexivity.
    assert (Hc : context_clean string unit undeclared_world "x + 1" = false)
      by reflexivity.
    split; [exact Hs|]. split; [exact Hc|].
    exact (proj2 (parsing_reports_first_failing_phase instructions_file
                    string unit undeclared_world "x + 1") Hs Hc).
Defined.

Lemma run_drops_output_on_error_witness :
  Stat _ _ broken_world instructions_file
  = Stat _ _ other_broken_world instructions_file /\
  snd (Output _ _ broken_world vm_binary [instructions_file])
  = Some "exit status 2" /\
  snd (Output _ _ other_broken_world vm_binary [instructions_file])
  = Some "exit status 2" /\
  run instructions_file vm_binary trim_space string unit broken_world
  = run instructions_file vm_binary trim_space string unit
      other_broken_world.
Proof.
  assert (Hstat : Stat _ _ broken_world instructions_file
                  = Stat _ _ other_broken_world instructions_file)
    by reflexivity.
  assert (H1 : snd (Output _ _ broken_world vm_binary [instructions_file])
               = Some "exit status 2") by reflexivity.
  assert (H2 : snd (Output _ _ other_broken_world vm_binary
                      [instructions_file])
               = Some "exit status 2") by reflexivity.
  split; [exact Hstat|]. split; [exact H1|]. split; [exact H2|].
  exact (run_drops_output_on_error instructions_file vm_binary trim_space
           string unit broken_world other_broken_world "exit status 2"
           Hstat H1 H2).
Defined.

Lemma handlers_answer_witness :
  In (EvWriteFile instructions_file "code of 1 + 2")
    (snd (Compile instructions_file string unit clean_world
            (Bound "1 + 2"))) /\
  exists program, Bound "1 + 2" = Bound program /\
    syntax_clean string unit clean_world program = true /\
    context_clean string unit clean_world program = true.
Proof.
  assert (Hin : In (EvWriteFile instructions_file "code of 1 + 2")
                  (snd (Compile instructions_file string unit clean_world
                          (Bound "1 + 2"))))
    by (do 4 right; left; reflexivity).
  split; [exact Hin|].
  exact (proj1 (proj2 (proj2 (handlers_answer instructions_file vm_binary
                                trim_space string unit clean_world)))
           (Bound "1 + 2") instructions_file "code of 1 + 2" Hin).
Defined.

(** The handlers run on the samples. *)
Example run_broken :
  run instructions_file vm_binary trim_space string unit broken_world
  = ("exit status 2" +:+ nl +:+ "...failed",
     [EvStat instructions_file; EvExec vm_binary [instructions_file]]).
Proof. vm_compute. reflexivity. Qed.

Example Compile_unbound :
  Compile instructions_file string unit clean_world
    (BindError "unexpected end of JSON input")
  = (AbortWithStatusJSON 400 "Bad request", []).
Proof. reflexivity. Qed.

End HandlerProperties.
